(** * Event authorization of the tsuru API: permission checkers, listing
      filter and the event handlers.

    A shallow embedding of [api/event.go]: the ten [evtPermChecker]
    implementations, the registry [evtPermMap], [filterForPerms] and the
    handlers [eventInfo], [eventCancel] and [eventList].

    Go slices are modelled with their nil value ([slice]); calls into the
    packages [app], [auth], [provision], [event] and the service registries
    are calls into an environment [Env] and are recorded in a trace;
    handlers return either a response or an error. *)

From Stdlib Require Import List String Ascii Bool ZArith Lia Permutation.
Import ListNotations.
Local Open Scope string_scope.
Local Open Scope list_scope.

Set Implicit Arguments.

(** ** Go slices *)

(** A slice is either nil ([None]) or holds its elements.  Only a literal
    such as [[]string{}] makes a non-nil empty slice. *)
Definition slice (A : Type) : Type := option (list A).

Definition elems {A} (s : slice A) : list A :=
  match s with
  | None => []
  | Some l => l
  end.

(** [append(s, x)]: appending to nil gives a one-element slice. *)
Definition sappend {A} (s : slice A) (x : A) : slice A := Some (elems s ++ [x]).

Definition is_nil {A} (s : slice A) : bool :=
  match s with
  | None => true
  | Some _ => false
  end.

(** ** Package permission *)

(** Modelled from the spec: the declaration of the context types lives in
    package [permission]; the closed enumeration of section 3 is used. *)
Inductive contextType : Type :=
| CtxGlobal | CtxTeam | CtxPool | CtxApp | CtxService
| CtxServiceInstance | CtxIaaS | CtxUser | CtxRole.

Definition contextType_eqb (a b : contextType) : bool :=
  match a, b with
  | CtxGlobal, CtxGlobal | CtxTeam, CtxTeam | CtxPool, CtxPool
  | CtxApp, CtxApp | CtxService, CtxService
  | CtxServiceInstance, CtxServiceInstance | CtxIaaS, CtxIaaS
  | CtxUser, CtxUser | CtxRole, CtxRole => true
  | _, _ => false
  end.


Record PermissionContext : Type := Context {
  CtxType : contextType;
  Value : string
}.


(** [permission.Contexts(t, values)]: one context per value. *)
Definition Contexts (t : contextType) (values : list string) : list PermissionContext :=
  map (Context t) values.

Definition PermissionContext_eqb (a b : PermissionContext) : bool :=
  contextType_eqb (CtxType a) (CtxType b) && String.eqb (Value a) (Value b).


(** The permission schemes named by the checkers. *)
Inductive PermissionScheme : Type :=
| PermAppReadEvents | PermAppUpdateEvents
| PermTeamReadEvents | PermTeamUpdateEvents
| PermServiceReadEvents | PermServiceUpdateEvents
| PermServiceInstanceReadEvents | PermServiceInstanceUpdateEvents
| PermPoolReadEvents | PermPoolUpdateEvents
| PermUserReadEvents | PermUserUpdateEvents
| PermMachineReadEvents | PermMachineUpdateEvents
| PermRoleReadEvents | PermRoleUpdateEvents.

(** [auth.Token]: the user name and, per scheme, the contexts in which the
    token's permissions grant the scheme, in the order of the grants. *)
Record Token : Type := {
  GetUserName : string;
  Grants : PermissionScheme -> list PermissionContext
}.

Definition ContextsForPermission (t : Token) (s : PermissionScheme) : list PermissionContext :=
  Grants t s.

Definition isGlobal (c : PermissionContext) : bool := contextType_eqb (CtxType c) CtxGlobal.

(** Modelled from the spec: [permission.Check] is the predicate "the actor
    holds the scheme within a set of contexts", where a Global context
    subsumes every value of every other kind: some grant of the scheme is
    Global or is one of the given contexts. *)
Definition Check (t : Token) (s : PermissionScheme) (ctxs : list PermissionContext) : bool :=
  existsb (fun g => isGlobal g || existsb (PermissionContext_eqb g) ctxs)
          (ContextsForPermission t s).

(** ** Package event *)

Inductive TargetType : Type :=
| TargetTypeApp | TargetTypeTeam | TargetTypeService | TargetTypeServiceInstance
| TargetTypePool | TargetTypeUser | TargetTypeContainer | TargetTypeNode
| TargetTypeIaas | TargetTypeRole
| TargetTypeOther (name : string).   (* any other string of the Go type *)

Definition TargetType_eqb (a b : TargetType) : bool :=
  match a, b with
  | TargetTypeApp, TargetTypeApp | TargetTypeTeam, TargetTypeTeam
  | TargetTypeService, TargetTypeService
  | TargetTypeServiceInstance, TargetTypeServiceInstance
  | TargetTypePool, TargetTypePool | TargetTypeUser, TargetTypeUser
  | TargetTypeContainer, TargetTypeContainer | TargetTypeNode, TargetTypeNode
  | TargetTypeIaas, TargetTypeIaas | TargetTypeRole, TargetTypeRole => true
  | TargetTypeOther x, TargetTypeOther y => String.eqb x y
  | _, _ => false
  end.


Record Target : Type := { Type_ : TargetType; TValue : string }.

(** [event.TargetFilter]: nil [Values] is "no restriction on the value". *)
Record TargetFilter : Type := {
  FType : TargetType;
  Values : slice string
}.

(** [event.Filter]: the fields decoded from the request and the allowed
    targets. *)
Record Filter : Type := {
  UserFields : list (string * string);
  AllowedTargets : slice TargetFilter
}.

Record Event : Type := {
  UniqueID : string;
  ETarget : Target;
  Owner : string
}.

(** ** Errors and results *)

Inductive error : Type :=
| HTTP (Code : Z) (Message : string)   (* [&errors.HTTP{Code, Message}] *)
| ErrUnauthorized                      (* [permission.ErrUnauthorized] *)
| ErrNotCancelable                     (* [event.ErrNotCancelable] *)
| ErrOther (msg : string).             (* an error of a store or registry *)

Definition StatusOK : Z := 200.
Definition StatusNoContent : Z := 204.
Definition StatusBadRequest : Z := 400.
Definition StatusNotFound : Z := 404.

Definition error_eqb (a b : error) : bool :=
  match a, b with
  | HTTP c m, HTTP c' m' => Z.eqb c c' && String.eqb m m'
  | ErrUnauthorized, ErrUnauthorized => true
  | ErrNotCancelable, ErrNotCancelable => true
  | ErrOther m, ErrOther m' => String.eqb m m'
  | _, _ => false
  end.

Inductive Result (A : Type) : Type :=
| Ok (a : A)
| Err (e : error).
Arguments Ok {A} a.
Arguments Err {A} e.

(** ** Entities of the owning stores *)

Record App : Type := { App_Name : string; App_Teams : list string; App_Pool : string }.
Record Unit_ : Type := { Unit_ID : string }.
Record Team : Type := { Team_Name : string }.
Record Service : Type := { Service_Name : string; Service_OwnerTeams : list string }.
Record ServiceInstance : Type := {
  SI_Name : string;
  SI_ServiceName : string;
  SI_Teams : list string
}.
Record Pool : Type := { Pool_Name : string }.
Record Node : Type := { Node_Address : string; Node_Pool : string }.

(** ** Calls into the collaborators, and the monad that records them *)

Inductive Call : Type :=
| CallAppList (contexts : list PermissionContext)
| CallUnits (a : App)
| CallReadableServices (contexts : list PermissionContext)
| CallReadableInstances (contexts : list PermissionContext)
| CallListNodes (addrs : slice string)
| CallGetAppFromContext (name : string)
| CallGetTeam (name : string)
| CallGetService (name : string)
| CallGetServiceInstance (serviceName instanceName : string)
| CallGetPoolByName (name : string)
| CallGetAppFromUnitID (id : string)
| CallPermissionCheck (s : PermissionScheme) (contexts : list PermissionContext)
| CallGetByID (id : string)
| CallTryCancel (e : Event) (reason user : string)
| CallEventList (f : Filter).

(** A computation returns the calls it made, in order, and its result; an
    error stops it and keeps the calls made so far. *)
Definition M (A : Type) : Type := (list Call * Result A)%type.

Definition ret {A} (a : A) : M A := ([], Ok a).
Definition fail {A} (e : error) : M A := ([], Err e).

Definition bind {A B} (m : M A) (f : A -> M B) : M B :=
  match m with
  | (tr, Ok a) => let '(tr', r) := f a in (tr ++ tr', r)
  | (tr, Err e) => (tr, Err e)
  end.

Definition call {A} (c : Call) (r : Result A) : M A := ([c], r).

Definition trace {A} (m : M A) : list Call := fst m.
Definition result {A} (m : M A) : Result A := snd m.

Declare Scope go_scope.
Delimit Scope go_scope with go.
Notation "x <- m ;; k" := (bind m (fun x => k))
  (at level 100, m at next level, right associativity) : go_scope.
Local Open Scope go_scope.

(** ** The environment: the stores and registries the checkers call *)

Record Env : Type := {
  (* [app.List(appFilterByContext(contexts, nil))] *)
  app_List : list PermissionContext -> Result (list App);
  (* [a.Units()] *)
  app_Units : App -> Result (list Unit_);
  provisionReadableServices : Token -> list PermissionContext -> Result (list Service);
  (* [readableInstances(t, contexts, "", "")] *)
  readableInstances : Token -> list PermissionContext -> Result (list ServiceInstance);
  (* [app.Provisioner.(provision.NodeProvisioner)] and its [ListNodes] *)
  NodeProvisioner : option (slice string -> Result (slice Node));
  getAppFromContext : string -> Result App;
  auth_GetTeam : string -> Result Team;
  getService : string -> Result Service;
  getServiceInstanceOrError : string -> string -> Result ServiceInstance;
  provision_GetPoolByName : string -> Result Pool;
  (* [app.Provisioner.GetAppFromUnitID], seen through [provision.App] *)
  GetAppFromUnitID : string -> Result App;
  event_GetByID : string -> Result Event;
  (* [e.TryCancel(reason, owner)]: nil or an error *)
  TryCancel : Event -> string -> string -> option error;
  event_List : Filter -> Result (list Event);
  (* [dec.DecodeValues(&filter, r.Form)] on a fresh filter *)
  DecodeValues : list (string * list string) -> Result Filter;
  (* [filter.PruneUserValues()] *)
  PruneUserValues : Filter -> Filter;
  (* the [Error()] text of an error of another package *)
  errorText : error -> string
}.

Definition Error (env : Env) (e : error) : string :=
  match e with
  | HTTP _ m => m
  | _ => errorText env e
  end.

(** ** Requests and responses *)

Record Request : Type := {
  uuid : string;                       (* [r.URL.Query().Get(":uuid")] *)
  reason : string;                     (* [r.FormValue("reason")] *)
  Form : list (string * list string)   (* [r.Form] *)
}.

Inductive Body : Type :=
| NoBody
| JSONEvent (e : Event)
| JSONEvents (es : list Event).

(** What a handler that returns nil has written to the response writer. *)
Record Response : Type := {
  Status : Z;
  ContentType : option string;
  RBody : Body
}.

(** ** Helpers from the libraries *)

Definition isHexDigit (c : ascii) : bool :=
  let n := nat_of_ascii c in
  (Nat.leb 48 n && Nat.leb n 57) || (Nat.leb 97 n && Nat.leb n 102)
  || (Nat.leb 65 n && Nat.leb n 70).

(** [bson.IsObjectIdHex]: 24 characters, all hexadecimal digits. *)
Definition IsObjectIdHex (s : string) : bool :=
  Nat.eqb (String.length s) 24 && forallb isHexDigit (list_ascii_of_string s).

(** Cut a string at its first ["/"]. *)
Fixpoint cutSlash (s : string) : option (string * string) :=
  match s with
  | EmptyString => None
  | String c rest =>
      if Ascii.eqb c "/"%char then Some (EmptyString, rest)
      else match cutSlash rest with
           | Some (a, b) => Some (String c a, b)
           | None => None
           end
  end.

(** [strings.SplitN(s, "/", 2)] *)
Definition SplitN2 (s : string) : list string :=
  match cutSlash s with
  | Some (a, b) => [a; b]
  | None => [s]
  end.

(** Modelled from the spec: [serviceIntancePermName] is declared with the
    service-instance handlers; the identity of a service instance is the
    composite "serviceName/instanceName". *)
Definition serviceIntancePermName (serviceName instanceName : string) : string :=
  serviceName ++ "/" ++ instanceName.

(** [permission.Check], recorded as a call. *)
Definition permission_Check (t : Token) (s : PermissionScheme)
    (ctxs : list PermissionContext) : M bool :=
  call (CallPermissionCheck s ctxs) (Ok (Check t s ctxs)).

(** ** The checkers *)

Inductive checkKind : Type := readCheckKind | updateCheckKind.

(** The map literal [perms] of every [check] method, applied to [kind]. *)
Definition perms (readScheme updateScheme : PermissionScheme) (kind : checkKind) : PermissionScheme :=
  match kind with
  | readCheckKind => readScheme
  | updateCheckKind => updateScheme
  end.

Record evtPermChecker : Type := {
  filter : Env -> Token -> M (option TargetFilter);
  check : Env -> Token -> Request -> Event -> checkKind -> M bool
}.

(** [for _, x := range xs { vals = append(vals, x) }] *)
Definition appendAll (vals : slice string) (xs : list string) : slice string :=
  fold_left sappend xs vals.

(** The loop of the team, pool and iaas filters: a Global context resets
    the values to nil and leaves the loop, a context of the checker's own
    type adds its value. *)
Fixpoint contextLoop (own : contextType) (contexts : list PermissionContext)
    (vals : slice string) : slice string :=
  match contexts with
  | [] => vals
  | ctx :: rest =>
      if contextType_eqb (CtxType ctx) CtxGlobal then None
      else if contextType_eqb (CtxType ctx) own
           then contextLoop own rest (sappend vals (Value ctx))
           else contextLoop own rest vals
  end.

(** The loop of the user and role filters: only a Global context acts. *)
Fixpoint globalLoop (contexts : list PermissionContext) (vals : slice string) : slice string :=
  match contexts with
  | [] => vals
  | ctx :: rest =>
      if contextType_eqb (CtxType ctx) CtxGlobal then None
      else globalLoop rest vals
  end.

Definition appPermChecker_filter (env : Env) (t : Token) : M (option TargetFilter) :=
  let contexts := ContextsForPermission t PermAppReadEvents in
  match contexts with
  | [] => ret None
  | _ =>
      apps <- call (CallAppList contexts) (app_List env contexts) ;;
      match apps with
      | [] => ret None
      | _ => ret (Some {| FType := TargetTypeApp;
                          Values := appendAll None (map App_Name apps) |})
      end
  end.

Definition appPermChecker_check (env : Env) (t : Token) (r : Request) (e : Event)
    (kind : checkKind) : M bool :=
  let name := TValue (ETarget e) in
  a <- call (CallGetAppFromContext name) (getAppFromContext env name) ;;
  permission_Check t (perms PermAppReadEvents PermAppUpdateEvents kind)
    (Contexts CtxTeam (App_Teams a)
       ++ [Context CtxApp (App_Name a); Context CtxPool (App_Pool a)]).

Definition teamPermChecker_filter (env : Env) (t : Token) : M (option TargetFilter) :=
  let contexts := ContextsForPermission t PermTeamReadEvents in
  match contexts with
  | [] => ret None
  | _ => ret (Some {| FType := TargetTypeTeam;
                      Values := contextLoop CtxTeam contexts None |})
  end.

Definition teamPermChecker_check (env : Env) (t : Token) (r : Request) (e : Event)
    (kind : checkKind) : M bool :=
  let name := TValue (ETarget e) in
  tm <- call (CallGetTeam name) (auth_GetTeam env name) ;;
  permission_Check t (perms PermTeamReadEvents PermTeamUpdateEvents kind)
    [Context CtxTeam (Team_Name tm)].

Definition servicePermChecker_filter (env : Env) (t : Token) : M (option TargetFilter) :=
  let contexts := ContextsForPermission t PermServiceReadEvents in
  match contexts with
  | [] => ret None
  | _ =>
      services <- call (CallReadableServices contexts)
                       (provisionReadableServices env t contexts) ;;
      match services with
      | [] => ret None
      | _ => ret (Some {| FType := TargetTypeService;
                          Values := appendAll None (map Service_Name services) |})
      end
  end.

Definition servicePermChecker_check (env : Env) (t : Token) (r : Request) (e : Event)
    (kind : checkKind) : M bool :=
  let name := TValue (ETarget e) in
  s <- call (CallGetService name) (getService env name) ;;
  permission_Check t (perms PermServiceReadEvents PermServiceUpdateEvents kind)
    (Contexts CtxTeam (Service_OwnerTeams s) ++ [Context CtxService (Service_Name s)]).

Definition serviceInstancePermChecker_filter (env : Env) (t : Token) : M (option TargetFilter) :=
  let contexts := ContextsForPermission t PermServiceInstanceReadEvents in
  match contexts with
  | [] => ret None
  | _ =>
      instances <- call (CallReadableInstances contexts)
                        (readableInstances env t contexts) ;;
      match instances with
      | [] => ret None
      | _ => ret (Some {| FType := TargetTypeServiceInstance;
                          Values := appendAll None
                            (map (fun s => serviceIntancePermName (SI_ServiceName s) (SI_Name s))
                                 instances) |})
      end
  end.

Definition serviceInstancePermChecker_check (env : Env) (t : Token) (r : Request)
    (e : Event) (kind : checkKind) : M bool :=
  match SplitN2 (TValue (ETarget e)) with
  | [v0; v1] =>
      si <- call (CallGetServiceInstance v0 v1) (getServiceInstanceOrError env v0 v1) ;;
      permission_Check t
        (perms PermServiceInstanceReadEvents PermServiceInstanceUpdateEvents kind)
        (Contexts CtxTeam (SI_Teams si)
           ++ [Context CtxServiceInstance (TValue (ETarget e))])
  | _ => ret false
  end.

Definition poolPermChecker_filter (env : Env) (t : Token) : M (option TargetFilter) :=
  let contexts := ContextsForPermission t PermPoolReadEvents in
  match contexts with
  | [] => ret None
  | _ => ret (Some {| FType := TargetTypePool;
                      Values := contextLoop CtxPool contexts None |})
  end.

Definition poolPermChecker_check (env : Env) (t : Token) (r : Request) (e : Event)
    (kind : checkKind) : M bool :=
  let name := TValue (ETarget e) in
  p <- call (CallGetPoolByName name) (provision_GetPoolByName env name) ;;
  permission_Check t (perms PermPoolReadEvents PermPoolUpdateEvents kind)
    [Context CtxPool (Pool_Name p)].

Definition userPermChecker_filter (env : Env) (t : Token) : M (option TargetFilter) :=
  let allowed := Some [GetUserName t] in
  let contexts := ContextsForPermission t PermUserReadEvents in
  match contexts with
  | [] => ret (Some {| FType := TargetTypeUser; Values := allowed |})
  | _ => ret (Some {| FType := TargetTypeUser; Values := globalLoop contexts allowed |})
  end.

Definition userPermChecker_check (env : Env) (t : Token) (r : Request) (e : Event)
    (kind : checkKind) : M bool :=
  permission_Check t (perms PermUserReadEvents PermUserUpdateEvents kind)
    [Context CtxGlobal ""].

Definition iaasPermChecker_filter (env : Env) (t : Token) : M (option TargetFilter) :=
  let contexts := ContextsForPermission t PermMachineReadEvents in
  match contexts with
  | [] => ret None
  | _ => ret (Some {| FType := TargetTypeIaas;
                      Values := contextLoop CtxIaaS contexts None |})
  end.

Definition iaasPermChecker_check (env : Env) (t : Token) (r : Request) (e : Event)
    (kind : checkKind) : M bool :=
  permission_Check t (perms PermMachineReadEvents PermMachineUpdateEvents kind)
    [Context CtxIaaS (TValue (ETarget e))].

(** The loop over the applications of the container filter. *)
Fixpoint containerLoop (env : Env) (apps : list App) (vals : slice string) : M (slice string) :=
  match apps with
  | [] => ret vals
  | a :: rest =>
      units <- call (CallUnits a) (app_Units env a) ;;
      containerLoop env rest (appendAll vals (map Unit_ID units))
  end.

Definition containerPermChecker_filter (env : Env) (t : Token) : M (option TargetFilter) :=
  let contexts := ContextsForPermission t PermAppReadEvents in
  match contexts with
  | [] => ret None
  | _ =>
      apps <- call (CallAppList contexts) (app_List env contexts) ;;
      match apps with
      | [] => ret None
      | _ =>
          vals <- containerLoop env apps (Some []) ;;
          ret (Some {| FType := TargetTypeContainer; Values := vals |})
      end
  end.

Definition containerPermChecker_check (env : Env) (t : Token) (r : Request) (e : Event)
    (kind : checkKind) : M bool :=
  let id := TValue (ETarget e) in
  a <- call (CallGetAppFromUnitID id) (GetAppFromUnitID env id) ;;
  permission_Check t (perms PermAppReadEvents PermAppUpdateEvents kind)
    (Contexts CtxTeam (App_Teams a)
       ++ [Context CtxApp (App_Name a); Context CtxPool (App_Pool a)]).

(** The addresses of the nodes of one pool, in the order of the listing. *)
Definition nodesOfPool (nodes : slice Node) (pool : string) : list string :=
  map Node_Address (List.filter (fun n => String.eqb (Node_Pool n) pool) (elems nodes)).

(** The loop of the node filter; [nodes] stays nil until a listing has
    returned a non-nil slice. *)
Fixpoint nodeLoop (env : Env) (contexts : list PermissionContext)
    (vals : slice string) (nodes : slice Node) : M (slice string) :=
  match contexts with
  | [] => ret vals
  | ctx :: rest =>
      if contextType_eqb (CtxType ctx) CtxGlobal then ret None
      else if contextType_eqb (CtxType ctx) CtxPool then
        nodes' <- (if is_nil nodes then
                     match NodeProvisioner env with
                     | Some ListNodes => call (CallListNodes None) (ListNodes None)
                     | None => ret nodes
                     end
                   else ret nodes) ;;
        nodeLoop env rest (appendAll vals (nodesOfPool nodes' (Value ctx))) nodes'
      else nodeLoop env rest vals nodes
  end.

Definition nodePermChecker_filter (env : Env) (t : Token) : M (option TargetFilter) :=
  let contexts := ContextsForPermission t PermPoolReadEvents in
  match contexts with
  | [] => ret None
  | _ =>
      vals <- nodeLoop env contexts None None ;;
      ret (Some {| FType := TargetTypeNode; Values := vals |})
  end.

Definition nodePermChecker_check (env : Env) (t : Token) (r : Request) (e : Event)
    (kind : checkKind) : M bool :=
  match NodeProvisioner env with
  | Some ListNodes =>
      let addrs := Some [TValue (ETarget e)] in
      nodes <- call (CallListNodes addrs) (ListNodes addrs) ;;
      let ctx := match elems nodes with
                 | n :: _ => [Context CtxPool (Node_Pool n)]
                 | [] => []
                 end in
      permission_Check t (perms PermPoolReadEvents PermPoolUpdateEvents kind) ctx
  | None => ret false
  end.

Definition rolePermChecker_filter (env : Env) (t : Token) : M (option TargetFilter) :=
  let contexts := ContextsForPermission t PermRoleReadEvents in
  match contexts with
  | [] => ret None
  | _ => ret (Some {| FType := TargetTypeRole; Values := globalLoop contexts None |})
  end.

Definition rolePermChecker_check (env : Env) (t : Token) (r : Request) (e : Event)
    (kind : checkKind) : M bool :=
  permission_Check t (perms PermRoleReadEvents PermRoleUpdateEvents kind)
    [Context CtxGlobal ""].

Definition appPermChecker : evtPermChecker :=
  {| filter := appPermChecker_filter; check := appPermChecker_check |}.
Definition teamPermChecker : evtPermChecker :=
  {| filter := teamPermChecker_filter; check := teamPermChecker_check |}.
Definition servicePermChecker : evtPermChecker :=
  {| filter := servicePermChecker_filter; check := servicePermChecker_check |}.
Definition serviceInstancePermChecker : evtPermChecker :=
  {| filter := serviceInstancePermChecker_filter; check := serviceInstancePermChecker_check |}.
Definition poolPermChecker : evtPermChecker :=
  {| filter := poolPermChecker_filter; check := poolPermChecker_check |}.
Definition userPermChecker : evtPermChecker :=
  {| filter := userPermChecker_filter; check := userPermChecker_check |}.
Definition containerPermChecker : evtPermChecker :=
  {| filter := containerPermChecker_filter; check := containerPermChecker_check |}.
Definition nodePermChecker : evtPermChecker :=
  {| filter := nodePermChecker_filter; check := nodePermChecker_check |}.
Definition iaasPermChecker : evtPermChecker :=
  {| filter := iaasPermChecker_filter; check := iaasPermChecker_check |}.
Definition rolePermChecker : evtPermChecker :=
  {| filter := rolePermChecker_filter; check := rolePermChecker_check |}.

(** ** The registry *)

(** The entries of the map literal [evtPermMap]. *)
Definition evtPermMap : list (TargetType * evtPermChecker) :=
  [ (TargetTypeApp, appPermChecker);
    (TargetTypeTeam, teamPermChecker);
    (TargetTypeService, servicePermChecker);
    (TargetTypeServiceInstance, serviceInstancePermChecker);
    (TargetTypePool, poolPermChecker);
    (TargetTypeUser, userPermChecker);
    (TargetTypeContainer, containerPermChecker);
    (TargetTypeNode, nodePermChecker);
    (TargetTypeIaas, iaasPermChecker);
    (TargetTypeRole, rolePermChecker) ].

(** [evtPermMap[k]]: nil for a key that is not in the map. *)
Definition evtPermMap_get (k : TargetType) : option evtPermChecker :=
  match find (fun kv => TargetType_eqb (fst kv) k) evtPermMap with
  | Some kv => Some (snd kv)
  | None => None
  end.

(** The scheme whose contexts the filter of a kind enumerates. *)
Definition readScheme (k : TargetType) : option PermissionScheme :=
  match k with
  | TargetTypeApp => Some PermAppReadEvents
  | TargetTypeTeam => Some PermTeamReadEvents
  | TargetTypeService => Some PermServiceReadEvents
  | TargetTypeServiceInstance => Some PermServiceInstanceReadEvents
  | TargetTypePool => Some PermPoolReadEvents
  | TargetTypeUser => Some PermUserReadEvents
  | TargetTypeContainer => Some PermAppReadEvents
  | TargetTypeNode => Some PermPoolReadEvents
  | TargetTypeIaas => Some PermMachineReadEvents
  | TargetTypeRole => Some PermRoleReadEvents
  | TargetTypeOther _ => None
  end.

(** ** [filterForPerms] *)

(** The body of [for _, checker := range evtPermMap], which writes
    [filter.AllowedTargets].  Go leaves the order of a range over a map
    unspecified: [entries] is the order of one run.  The loop gives the
    calls made, the allowed targets written so far and the error that left
    it, if any. *)
Fixpoint filterLoop (env : Env) (t : Token) (entries : list (TargetType * evtPermChecker))
    (allowedTargets : slice TargetFilter)
    : list Call * slice TargetFilter * option error :=
  match entries with
  | [] => ([], allowedTargets, None)
  | (_, checker) :: rest =>
      match filter checker env t with
      | (tr, Err err) => (tr, allowedTargets, Some err)
      | (tr, Ok allowed) =>
          let '(tr', written, err) :=
            filterLoop env t rest
              (match allowed with
               | Some a => sappend allowedTargets a
               | None => allowedTargets
               end) in
          (tr ++ tr', written, err)
      end
  end.

(** A run of [filterForPerms]: the calls made, the state in which it leaves
    the filter object that [filter] points to (a new object when [filter]
    is nil), and the returned pair, [Err err] being [nil, err] and [Ok] the
    pointer to that object. *)
Record FilterRun : Type := {
  calls : list Call;
  pointee : Filter;
  returned : Result Filter
}.

Definition filterForPerms (entries : list (TargetType * evtPermChecker))
    (env : Env) (t : Token) (filter : option Filter) : FilterRun :=
  let object := match filter with
                | None => {| UserFields := []; AllowedTargets := None |}
                | Some f => f
                end in
  let '(tr, written, err) := filterLoop env t entries (Some []) in
  let object := {| UserFields := UserFields object; AllowedTargets := written |} in
  {| calls := tr;
     pointee := object;
     returned := match err with
                 | Some err => Err err
                 | None => Ok object
                 end |}.

(** The calls and the returned value of a run, as a computation. *)
Definition run (r : FilterRun) : M Filter := (calls r, returned r).

(** ** The handlers *)

(** Replace the error of a computation, as in
    [if err != nil { return f(err) }]. *)
Definition mapErr {A} (m : M A) (f : error -> error) : M A :=
  match m with
  | (tr, Err e) => (tr, Err (f e))
  | (tr, Ok a) => (tr, Ok a)
  end.

Definition jsonResponse (b : Body) : Response :=
  {| Status := StatusOK; ContentType := Some "application/json"; RBody := b |}.

Definition noContent : Response :=
  {| Status := StatusNoContent; ContentType := None; RBody := NoBody |}.

Definition eventList (entries : list (TargetType * evtPermChecker))
    (env : Env) (t : Token) (r : Request) : M Response :=
  match DecodeValues env (Form r) with
  | Err err =>
      fail (HTTP StatusBadRequest ("unable to parse event filters: " ++ Error env err))
  | Ok filter =>
      let filter := PruneUserValues env filter in
      filter <- run (filterForPerms entries env t (Some filter)) ;;
      events <- call (CallEventList filter) (event_List env filter) ;;
      match events with
      | [] => ret noContent
      | _ => ret (jsonResponse (JSONEvents events))
      end
  end.

Definition eventInfo (env : Env) (t : Token) (r : Request) : M Response :=
  if negb (IsObjectIdHex (uuid r)) then
    fail (HTTP StatusBadRequest ("uuid parameter is not ObjectId: " ++ uuid r))
  else
    e <- mapErr (call (CallGetByID (uuid r)) (event_GetByID env (uuid r)))
                (fun err => HTTP StatusNotFound (Error env err)) ;;
    match evtPermMap_get (Type_ (ETarget e)) with
    | None => fail ErrUnauthorized
    | Some checker =>
        hasPermission <- check checker env t r e readCheckKind ;;
        if negb hasPermission then fail ErrUnauthorized
        else ret (jsonResponse (JSONEvent e))
    end.

Definition eventCancel (env : Env) (t : Token) (r : Request) : M Response :=
  if negb (IsObjectIdHex (uuid r)) then
    fail (HTTP StatusBadRequest ("uuid parameter is not ObjectId: " ++ uuid r))
  else
    e <- mapErr (call (CallGetByID (uuid r)) (event_GetByID env (uuid r)))
                (fun err => HTTP StatusNotFound (Error env err)) ;;
    if String.eqb (reason r) "" then
      fail (HTTP StatusBadRequest "reason is mandatory")
    else
      match evtPermMap_get (Type_ (ETarget e)) with
      | None => fail ErrUnauthorized
      | Some checker =>
          hasPermission <- check checker env t r e updateCheckKind ;;
          if negb hasPermission then fail ErrUnauthorized
          else
            _ <- mapErr (call (CallTryCancel e (reason r) (GetUserName t))
                              (match TryCancel env e (reason r) (GetUserName t) with
                               | None => Ok tt
                               | Some err => Err err
                               end))
                        (fun err => if error_eqb err ErrNotCancelable
                                    then HTTP StatusBadRequest (Error env err)
                                    else err) ;;
            ret noContent
      end.

(** ** Predicates on traces *)

Definition isTryCancel (c : Call) : bool :=
  match c with
  | CallTryCancel _ _ _ => true
  | _ => false
  end.

Definition isServiceInstanceLookup (c : Call) : bool :=
  match c with
  | CallGetServiceInstance _ _ | CallReadableInstances _ => true
  | _ => false
  end.

(** The calls a [check] method makes: lookups in the owning stores and
    [permission.Check]. *)
Definition isCheckCall (c : Call) : bool :=
  match c with
  | CallGetAppFromContext _ | CallGetTeam _ | CallGetService _
  | CallGetServiceInstance _ _ | CallGetPoolByName _ | CallGetAppFromUnitID _
  | CallListNodes _ | CallPermissionCheck _ _ => true
  | _ => false
  end.

(** The calls a [filter] method makes: listings of the owning stores. *)
Definition isFilterCall (c : Call) : bool :=
  match c with
  | CallAppList _ | CallUnits _ | CallReadableServices _
  | CallReadableInstances _ | CallListNodes _ => true
  | _ => false
  end.

(** ** Listing scopes *)

(** What a filter result means to the event store. *)
Inductive ListingScope : Type :=
| Absent
| Unrestricted
| Restricted (values : list string).

Definition scopeOf (f : option TargetFilter) : ListingScope :=
  match f with
  | None => Absent
  | Some tf =>
      match Values tf with
      | None => Unrestricted
      | Some vs => Restricted vs
      end
  end.

(** The values of the contexts of one type, in order. *)
Definition valuesOfType (own : contextType) (contexts : list PermissionContext) : list string :=
  map Value (List.filter (fun c => contextType_eqb (CtxType c) own) contexts).

(** The context type a direct-context kind collects. *)
Definition ownContextType (k : TargetType) : option contextType :=
  match k with
  | TargetTypeTeam => Some CtxTeam
  | TargetTypePool => Some CtxPool
  | TargetTypeIaas => Some CtxIaaS
  | TargetTypeUser => Some CtxUser
  | TargetTypeRole => Some CtxRole
  | _ => None
  end.

Definition directContextKind (k : TargetType) : bool :=
  match ownContextType k with
  | Some _ => true
  | None => false
  end.

(** The scope a filter computation resolves to, when it returns. *)
Definition resultScope (m : M (option TargetFilter)) : Result ListingScope :=
  match result m with
  | Ok f => Ok (scopeOf f)
  | Err e => Err e
  end.

(** The target filters the checkers of [entries] return, in order. *)
Definition collected (env : Env) (t : Token)
    (entries : list (TargetType * evtPermChecker)) : list TargetFilter :=
  flat_map (fun kc => match result (filter (snd kc) env t) with
                      | Ok (Some a) => [a]
                      | _ => []
                      end) entries.

(** ** Sample stores, tokens and requests *)

Definition notFound {A} : Result A := Err (ErrOther "not found").

(** A store with the given applications, node provisioner, events and
    answer of [TryCancel]; every other lookup fails or is empty. *)
Definition sampleEnv (apps : Result (list App))
    (nodes : option (slice string -> Result (slice Node)))
    (events : string -> Result Event) (cancel : option error) : Env :=
  {| app_List := fun _ => apps;
     app_Units := fun _ => Ok [];
     provisionReadableServices := fun _ _ => Ok [];
     readableInstances := fun _ _ => Ok [];
     NodeProvisioner := nodes;
     getAppFromContext := fun _ => notFound;
     auth_GetTeam := fun name => Ok {| Team_Name := name |};
     getService := fun _ => notFound;
     getServiceInstanceOrError := fun _ _ => notFound;
     provision_GetPoolByName := fun name => Ok {| Pool_Name := name |};
     GetAppFromUnitID := fun _ => notFound;
     event_GetByID := events;
     TryCancel := fun _ _ _ => cancel;
     event_List := fun _ => Ok [];
     DecodeValues := fun _ => Ok {| UserFields := []; AllowedTargets := None |};
     PruneUserValues := fun f => f;
     errorText := fun e => match e with
                           | HTTP _ m => m
                           | ErrUnauthorized => "unauthorized"
                           | ErrNotCancelable => "event is not cancelable"
                           | ErrOther m => m
                           end |}.

Definition emptyEnv : Env := sampleEnv (Ok []) None (fun _ => notFound) None.

(** A token named [name] with the contexts [ctxs] for the scheme [s] and
    no other grant. *)
Definition scheme_eqb (a b : PermissionScheme) : bool :=
  match a, b with
  | PermAppReadEvents, PermAppReadEvents | PermAppUpdateEvents, PermAppUpdateEvents
  | PermTeamReadEvents, PermTeamReadEvents | PermTeamUpdateEvents, PermTeamUpdateEvents
  | PermServiceReadEvents, PermServiceReadEvents
  | PermServiceUpdateEvents, PermServiceUpdateEvents
  | PermServiceInstanceReadEvents, PermServiceInstanceReadEvents
  | PermServiceInstanceUpdateEvents, PermServiceInstanceUpdateEvents
  | PermPoolReadEvents, PermPoolReadEvents | PermPoolUpdateEvents, PermPoolUpdateEvents
  | PermUserReadEvents, PermUserReadEvents | PermUserUpdateEvents, PermUserUpdateEvents
  | PermMachineReadEvents, PermMachineReadEvents
  | PermMachineUpdateEvents, PermMachineUpdateEvents
  | PermRoleReadEvents, PermRoleReadEvents | PermRoleUpdateEvents, PermRoleUpdateEvents => true
  | _, _ => false
  end.

Definition tokenWith (name : string) (s : PermissionScheme)
    (ctxs : list PermissionContext) : Token :=
  {| GetUserName := name;
     Grants := fun s' => if scheme_eqb s' s then ctxs else [] |}.

Definition alice : Token := tokenWith "alice" PermRoleUpdateEvents [].

Definition sampleId : string := "0123456789abcdef01234567".

Definition sampleEvent (k : TargetType) (v : string) : Event :=
  {| UniqueID := sampleId; ETarget := {| Type_ := k; TValue := v |}; Owner := "bob" |}.

Definition requestFor (id why : string) : Request :=
  {| uuid := id; reason := why; Form := [] |}.

Definition myapp : App :=
  {| App_Name := "myapp"; App_Teams := ["alpha"]; App_Pool := "pool1" |}.

Definition node1 : Node := {| Node_Address := "10.0.0.1"; Node_Pool := "pool1" |}.

(** A node provisioner that knows [node1]. *)
Definition oneNode (addrs : slice string) : Result (slice Node) :=
  match addrs with
  | None => Ok (Some [node1])
  | Some l => Ok (Some (List.filter (fun n => existsb (String.eqb (Node_Address n)) l) [node1]))
  end.

Definition envOneApp : Env := sampleEnv (Ok [myapp]) None (fun _ => notFound) None.
Definition envOneNode : Env := sampleEnv (Ok []) (Some oneNode) (fun _ => notFound) None.

Definition globalForApps : Token :=
  tokenWith "alice" PermAppReadEvents [Context CtxGlobal ""].
Definition teamAndGlobal : Token :=
  tokenWith "alice" PermTeamReadEvents [Context CtxTeam "alpha"; Context CtxGlobal ""].
Definition poolAndGlobal : Token :=
  tokenWith "alice" PermPoolReadEvents [Context CtxPool "pool1"; Context CtxGlobal ""].
Definition poolOnly : Token :=
  tokenWith "alice" PermPoolReadEvents [Context CtxPool "pool1"].
Definition roleAdmin : Token :=
  tokenWith "alice" PermRoleReadEvents [Context CtxRole "admin"].
Definition userBob : Token :=
  tokenWith "alice" PermUserReadEvents [Context CtxUser "bob"].
Definition twoTeams : Token :=
  tokenWith "alice" PermTeamReadEvents
    [Context CtxTeam "alpha"; Context CtxPool "pool1"; Context CtxTeam "beta"].

Definition storedEvents (e : Event) (id : string) : Result Event :=
  if String.eqb id (UniqueID e) then Ok e else notFound.

(** A store holding one event about the user "bob". *)
Definition envUserEvent (cancel : option error) : Env :=
  sampleEnv (Ok []) None (storedEvents (sampleEvent TargetTypeUser "bob")) cancel.

Definition globalForUsers : Token :=
  {| GetUserName := "root";
     Grants := fun s => match s with
                        | PermUserReadEvents | PermUserUpdateEvents => [Context CtxGlobal ""]
                        | _ => []
                        end |}.

(** The error of the first checker of [entries] whose filter fails. *)
Fixpoint firstError (env : Env) (t : Token)
    (entries : list (TargetType * evtPermChecker)) : option error :=
  match entries with
  | [] => None
  | kc :: rest =>
      match result (filter (snd kc) env t) with
      | Err e => Some e
      | Ok _ => firstError env t rest
      end
  end.

(** The entries of [entries] before the first one whose filter fails. *)
Fixpoint okPrefix (env : Env) (t : Token)
    (entries : list (TargetType * evtPermChecker)) : list (TargetType * evtPermChecker) :=
  match entries with
  | [] => []
  | kc :: rest =>
      match result (filter (snd kc) env t) with
      | Err _ => []
      | Ok _ => kc :: okPrefix env t rest
      end
  end.

Definition failingApps : Env :=
  sampleEnv (Err (ErrOther "database is down")) None (fun _ => notFound) None.

Definition appsAndTeams : Token :=
  {| GetUserName := "alice";
     Grants := fun s => match s with
                        | PermAppReadEvents => [Context CtxTeam "alpha"]
                        | PermTeamReadEvents => [Context CtxTeam "alpha"]
                        | _ => []
                        end |}.

(** A filter decoded from a request that names allowed targets itself. *)
Definition forgedFilter : Filter :=
  {| UserFields := [("kindname", "app.deploy")];
     AllowedTargets := Some [ {| FType := TargetTypeApp; Values := None |} ] |}.

Definition iaasEc2 : Token :=
  tokenWith "alice" PermMachineReadEvents [Context CtxIaaS "ec2"].

(** An order of the registry in which the team checker comes first. *)
Definition teamFirst : list (TargetType * evtPermChecker) :=
  match evtPermMap with
  | app :: team :: others => team :: app :: others
  | _ => evtPermMap
  end.

(** ** More on the checks: the lookups and the schemes they use *)

(** The lookups of a [check] method in the owning stores. *)
Definition isStoreLookup (c : Call) : bool :=
  match c with
  | CallGetAppFromContext _ | CallGetTeam _ | CallGetService _
  | CallGetServiceInstance _ _ | CallGetPoolByName _ | CallGetAppFromUnitID _
  | CallListNodes _ => true
  | _ => false
  end.

(** The entry of the map literal [perms] that the [check] method of a kind
    takes for a mode. *)
Definition checkScheme (k : TargetType) (kind : checkKind) : option PermissionScheme :=
  match k with
  | TargetTypeApp => Some (perms PermAppReadEvents PermAppUpdateEvents kind)
  | TargetTypeTeam => Some (perms PermTeamReadEvents PermTeamUpdateEvents kind)
  | TargetTypeService => Some (perms PermServiceReadEvents PermServiceUpdateEvents kind)
  | TargetTypeServiceInstance =>
      Some (perms PermServiceInstanceReadEvents PermServiceInstanceUpdateEvents kind)
  | TargetTypePool => Some (perms PermPoolReadEvents PermPoolUpdateEvents kind)
  | TargetTypeUser => Some (perms PermUserReadEvents PermUserUpdateEvents kind)
  | TargetTypeContainer => Some (perms PermAppReadEvents PermAppUpdateEvents kind)
  | TargetTypeNode => Some (perms PermPoolReadEvents PermPoolUpdateEvents kind)
  | TargetTypeIaas => Some (perms PermMachineReadEvents PermMachineUpdateEvents kind)
  | TargetTypeRole => Some (perms PermRoleReadEvents PermRoleUpdateEvents kind)
  | TargetTypeOther _ => None
  end.

(** The identifiers of the units of an application, none when the listing
    of its units fails. *)
Definition unitIDs (env : Env) (a : App) : list string :=
  match app_Units env a with
  | Ok units => map Unit_ID units
  | Err _ => []
  end.

Definition isPoolContext (c : PermissionContext) : bool :=
  contextType_eqb (CtxType c) CtxPool.

(** A store holding one event about a target of a kind outside the
    registry. *)
Definition envVolumeEvent : Env :=
  sampleEnv (Ok []) None (storedEvents (sampleEvent (TargetTypeOther "volume") "vol1")) None.

Definition isEventList (c : Call) : bool :=
  match c with
  | CallEventList _ => true
  | _ => false
  end.

(** The addresses that the Pool contexts select in a listing of nodes, in
    the order of the contexts. *)
Definition nodesOfContexts (nodes : slice Node) (contexts : list PermissionContext)
    : list string :=
  flat_map (fun c => nodesOfPool nodes (Value c)) (List.filter isPoolContext contexts).

Definition node2 : Node := {| Node_Address := "10.0.0.2"; Node_Pool := "pool2" |}.

(** A node provisioner that knows [node1] and [node2]. *)
Definition twoNodes (addrs : slice string) : Result (slice Node) :=
  match addrs with
  | None => Ok (Some [node1; node2])
  | Some l =>
      Ok (Some (List.filter (fun n => existsb (String.eqb (Node_Address n)) l)
                            [node1; node2]))
  end.

Definition envTwoNodes : Env := sampleEnv (Ok []) (Some twoNodes) (fun _ => notFound) None.

(** A node provisioner whose listing fails. *)
Definition nodesDown (addrs : slice string) : Result (slice Node) :=
  Err (ErrOther "provisioner is down").

Definition envNodesDown : Env := sampleEnv (Ok []) (Some nodesDown) (fun _ => notFound) None.

Definition twoPools : Token :=
  tokenWith "alice" PermPoolReadEvents
    [Context CtxPool "pool2"; Context CtxTeam "alpha"; Context CtxPool "pool1"].

(** * The pool handlers ([api/pool.go]) *)

(** The permission schemes named by the pool handlers. *)
Inductive PoolScheme : Type :=
| PermAppCreate | PermPoolCreate | PermPoolDelete
| PermPoolUpdateTeamAdd | PermPoolUpdateTeamRemove | PermPoolUpdate.

(** The errors of the pool handlers: those of the event handlers and the
    values that package [provision] declares. *)
Inductive PoolError : Type :=
| BaseError (e : error)
| ErrPoolNameIsRequired
| ErrDefaultPoolAlreadyExists
| ErrPoolNotFound.

Definition StatusCreated : Z := 201.
Definition StatusConflict : Z := 409.

Inductive PoolResult (A : Type) : Type :=
| Done (a : A)
| Failed (e : PoolError).
Arguments Done {A} a.
Arguments Failed {A} e.

(** [http.Request.Form] and [URL.Query()]: the values of each key. *)
Definition Values_ : Type := list (string * list string).

(** [m[key]] with its [ok]. *)
Fixpoint valuesOf (m : Values_) (key : string) : option (list string) :=
  match m with
  | [] => None
  | (k, vs) :: rest => if String.eqb k key then Some vs else valuesOf rest key
  end.

Record PoolRequest : Type := {
  urlQuery : Values_;           (* [r.URL.Query()] *)
  parsedForm : Values_;         (* [r.Form] once parsed *)
  parseFormError : bool         (* whether [r.ParseForm()] returns an error *)
}.

(** [r.URL.Query().Get(key)] and [r.FormValue(key)]: the first value. *)
Definition firstValue (m : Values_) (key : string) : string :=
  match valuesOf m key with
  | Some (v :: _) => v
  | _ => ""
  end.

Definition FormValue (r : PoolRequest) (key : string) : string :=
  firstValue (parsedForm r) key.

(** [strconv.ParseBool] *)
Definition ParseBool (s : string) : option bool :=
  if existsb (String.eqb s) ["1"; "t"; "T"; "TRUE"; "true"; "True"] then Some true
  else if existsb (String.eqb s) ["0"; "f"; "F"; "FALSE"; "false"; "False"] then Some false
  else None.

(** [b, _ := strconv.ParseBool(s)] *)
Definition parseBoolIgnoringError (s : string) : bool :=
  match ParseBool s with
  | Some b => b
  | None => false
  end.

Inductive bsonValue : Type :=
| BBool (b : bool)
| BIn (values : list string).        (* [bson.M{"$in": values}] *)

(** [bson.M] with the keys in the order of the source. *)
Definition bsonM : Type := list (string * bsonValue).

Record AddPoolOptions : Type := {
  APName : string;
  APPublic : bool;
  APDefault : bool;
  APForce : bool
}.

Record PoolRecord : Type := { PRName : string; PRTeams : list string }.

Inductive PoolCall : Type :=
| PermissionCheck (s : PoolScheme)
| EventNew (target : Target) (kind : PoolScheme) (owner : Token) (customData : Values_)
| EventDone (err : option PoolError)
| AddPool (opts : AddPoolOptions)
| RemovePool (name : string)
| AddTeamsToPool (name : string) (teams : list string)
| RemoveTeamsFromPool (name : string) (teams : list string)
| PoolUpdate (name : string) (query : bsonM) (forceDefault : bool)
| ListPools (orQuery : list bsonM).   (* [bson.M{"$or": orQuery}] *)

Record PoolEnv : Type := {
  (* [permission.ContextsForPermission(t, scheme)] *)
  poolContexts : Token -> PoolScheme -> list PermissionContext;
  (* [permission.Check(t, scheme)] *)
  poolCheck : Token -> PoolScheme -> bool;
  (* [event.New]: nil or its error *)
  event_New : Target -> PoolScheme -> Token -> Values_ -> option PoolError;
  formToEvents : Values_ -> Values_;
  provision_AddPool : AddPoolOptions -> option PoolError;
  provision_RemovePool : string -> option PoolError;
  provision_AddTeamsToPool : string -> list string -> option PoolError;
  provision_RemoveTeamsFromPool : string -> list string -> option PoolError;
  provision_PoolUpdate : string -> bsonM -> bool -> option PoolError;
  provision_ListPools : list bsonM -> PoolResult (list PoolRecord);
  poolErrorText : PoolError -> string     (* [err.Error()] *)
}.

(** What a pool handler that returns nil has written: the status given to
    [WriteHeader], if any, and the pools encoded as JSON, if any. *)
Record PoolResponse : Type := {
  written : option Z;
  jsonPools : option (list PoolRecord)
}.

Definition nothingWritten : PoolResponse := {| written := None; jsonPools := None |}.

(** A handler gives the calls it made, in order, and what it returns. *)
Definition P (A : Type) : Type := (list PoolCall * PoolResult A)%type.

Definition returnedError {A} (res : PoolResult A) : option PoolError :=
  match res with
  | Done _ => None
  | Failed e => Some e
  end.

Definition httpError (code : Z) (message : string) : PoolError :=
  BaseError (HTTP code message).

(** [evt, err := event.New(...)], [if err != nil { return err }] and
    [defer func() { evt.Done(err) }()] around the rest of the handler: the
    deferred call runs last, with the error that the handler returns. *)
Definition withEvent {A} (env : PoolEnv) (t : Token) (r : PoolRequest)
    (poolName : string) (kind : PoolScheme) (rest : P A) : P A :=
  let target := {| Type_ := TargetTypePool; TValue := poolName |} in
  let customData := formToEvents env (parsedForm r) in
  match event_New env target kind t customData with
  | Some err => ([EventNew target kind t customData], Failed err)
  | None =>
      let '(tr, res) := rest in
      (EventNew target kind t customData :: tr ++ [EventDone (returnedError res)], res)
  end.

(** [allowed := permission.Check(t, scheme)] and
    [if !allowed { return permission.ErrUnauthorized }] before the rest. *)
Definition withPermission {A} (env : PoolEnv) (t : Token) (s : PoolScheme)
    (rest : P A) : P A :=
  if poolCheck env t s
  then let '(tr, res) := rest in (PermissionCheck s :: tr, res)
  else ([PermissionCheck s], Failed (BaseError ErrUnauthorized)).

(** The query of [poolList], from the value of [teams] after the loop. *)
Definition poolListQuery (teams : slice string) : list bsonM :=
  [ [("public", BBool true)]; [("default", BBool true)] ]
  ++ (if is_nil teams
      then [ [("default", BBool false); ("public", BBool false)] ]
      else [])
  ++ (match elems teams with
      | [] => []
      | ts => [ [("default", BBool false); ("public", BBool false);
                 ("teams", BIn ts)] ]
      end).

Definition poolList (env : PoolEnv) (t : Token) (r : PoolRequest) : P PoolResponse :=
  let contexts := poolContexts env t PermAppCreate in
  let teams := contextLoop CtxTeam contexts (Some []) in
  let query := poolListQuery teams in
  match provision_ListPools env query with
  | Failed err => ([ListPools query], Failed err)
  | Done [] => ([ListPools query], Done {| written := Some StatusNoContent; jsonPools := None |})
  | Done pools => ([ListPools query], Done {| written := None; jsonPools := Some pools |})
  end.

Definition addPoolHandler (env : PoolEnv) (t : Token) (r : PoolRequest) : P PoolResponse :=
  withPermission env t PermPoolCreate
    (let public := parseBoolIgnoringError (FormValue r "public") in
     let isDefault := parseBoolIgnoringError (FormValue r "default") in
     let force := parseBoolIgnoringError (FormValue r "force") in
     let p := {| APName := FormValue r "name"; APPublic := public;
                 APDefault := isDefault; APForce := force |} in
     if String.eqb (APName p) "" then
       ([], Failed (httpError StatusBadRequest (poolErrorText env ErrPoolNameIsRequired)))
     else
       withEvent env t r (APName p) PermPoolCreate
         ([AddPool p],
          match provision_AddPool env p with
          | Some ErrDefaultPoolAlreadyExists =>
              Failed (httpError StatusConflict
                        (poolErrorText env ErrDefaultPoolAlreadyExists))
          | Some ErrPoolNameIsRequired =>
              Failed (httpError StatusBadRequest (poolErrorText env ErrPoolNameIsRequired))
          | Some err => Failed err
          | None => Done {| written := Some StatusCreated; jsonPools := None |}
          end)).

Definition removePoolHandler (env : PoolEnv) (t : Token) (r : PoolRequest)
    : P PoolResponse :=
  withPermission env t PermPoolDelete
    (let poolName := firstValue (urlQuery r) ":name" in
     withEvent env t r poolName PermPoolDelete
       ([RemovePool poolName],
        match provision_RemovePool env poolName with
        | Some ErrPoolNotFound =>
            Failed (httpError StatusNotFound (poolErrorText env ErrPoolNotFound))
        | Some err => Failed err
        | None => Done nothingWritten
        end)).

Definition addTeamToPoolHandler (env : PoolEnv) (t : Token) (r : PoolRequest)
    : P PoolResponse :=
  withPermission env t PermPoolUpdateTeamAdd
    (let msg := "You must provide the team." in
     if parseFormError r then ([], Failed (httpError StatusBadRequest msg))
     else
       let poolName := firstValue (urlQuery r) ":name" in
       withEvent env t r poolName PermPoolUpdateTeamAdd
         (match valuesOf (parsedForm r) "team" with
          | Some teams =>
              ([AddTeamsToPool poolName teams],
               match provision_AddTeamsToPool env poolName teams with
               | Some ErrPoolNotFound =>
                   Failed (httpError StatusNotFound (poolErrorText env ErrPoolNotFound))
               | Some err => Failed err
               | None => Done nothingWritten
               end)
          | None => ([], Failed (httpError StatusBadRequest msg))
          end)).

Definition removeTeamToPoolHandler (env : PoolEnv) (t : Token) (r : PoolRequest)
    : P PoolResponse :=
  withPermission env t PermPoolUpdateTeamRemove
    (let poolName := firstValue (urlQuery r) ":name" in
     withEvent env t r poolName PermPoolUpdateTeamRemove
       (match valuesOf (urlQuery r) "team" with
        | Some teams =>
            ([RemoveTeamsFromPool poolName teams],
             match provision_RemoveTeamsFromPool env poolName teams with
             | Some ErrPoolNotFound =>
                 Failed (httpError StatusNotFound (poolErrorText env ErrPoolNotFound))
             | Some err => Failed err
             | None => Done nothingWritten
             end)
        | None => ([], Failed (httpError StatusBadRequest "You must provide the team"))
        end)).

(** The [bson.M] that [poolUpdateHandler] fills from the form. *)
Definition poolUpdateQuery (r : PoolRequest) : bsonM :=
  (if String.eqb (FormValue r "default") "" then []
   else [("default", BBool (parseBoolIgnoringError (FormValue r "default")))])
  ++ (if String.eqb (FormValue r "public") "" then []
      else [("public", BBool (parseBoolIgnoringError (FormValue r "public")))]).

Definition poolUpdateHandler (env : PoolEnv) (t : Token) (r : PoolRequest)
    : P PoolResponse :=
  withPermission env t PermPoolUpdate
    (let poolName := firstValue (urlQuery r) ":name" in
     withEvent env t r poolName PermPoolUpdate
       (let query := poolUpdateQuery r in
        let forceDefault := parseBoolIgnoringError (FormValue r "force") in
        ([PoolUpdate poolName query forceDefault],
         match provision_PoolUpdate env poolName query forceDefault with
         | Some ErrPoolNotFound =>
             Failed (httpError StatusNotFound (poolErrorText env ErrPoolNotFound))
         | Some ErrDefaultPoolAlreadyExists =>
             Failed (httpError StatusConflict
                       (poolErrorText env ErrDefaultPoolAlreadyExists))
         | Some err => Failed err
         | None => Done nothingWritten
         end))).

(** The handlers that change pools, each with the scheme it asks for. *)
Definition poolMutations
    : list (PoolScheme * (PoolEnv -> Token -> PoolRequest -> P PoolResponse)) :=
  [ (PermPoolCreate, addPoolHandler);
    (PermPoolDelete, removePoolHandler);
    (PermPoolUpdateTeamAdd, addTeamToPoolHandler);
    (PermPoolUpdateTeamRemove, removeTeamToPoolHandler);
    (PermPoolUpdate, poolUpdateHandler) ].

Definition isStoreChange (c : PoolCall) : bool :=
  match c with
  | AddPool _ | RemovePool _ | AddTeamsToPool _ _ | RemoveTeamsFromPool _ _
  | PoolUpdate _ _ _ => true
  | _ => false
  end.

Definition isEventNew (c : PoolCall) : bool :=
  match c with
  | EventNew _ _ _ _ => true
  | _ => false
  end.

Definition isEventDone (c : PoolCall) : bool :=
  match c with
  | EventDone _ => true
  | _ => false
  end.

(** ** Sample pool stores and requests *)

(** A pool store where [allowed] says what [permission.Check] answers,
    [contexts] are the contexts for every scheme, events are always created
    and every change of the store answers [answer]. *)
Definition samplePoolEnv (allowed : bool) (contexts : list PermissionContext)
    (answer : option PoolError) (pools : list PoolRecord) : PoolEnv :=
  {| poolContexts := fun _ _ => contexts;
     poolCheck := fun _ _ => allowed;
     event_New := fun _ _ _ _ => None;
     formToEvents := fun form => form;
     provision_AddPool := fun _ => answer;
     provision_RemovePool := fun _ => answer;
     provision_AddTeamsToPool := fun _ _ => answer;
     provision_RemoveTeamsFromPool := fun _ _ => answer;
     provision_PoolUpdate := fun _ _ _ => answer;
     provision_ListPools := fun _ => Done pools;
     poolErrorText := fun e => match e with
                                | BaseError (HTTP _ m) => m
                                | BaseError (ErrOther m) => m
                                | BaseError _ => "error"
                                | ErrPoolNameIsRequired => "Pool name is required."
                                | ErrDefaultPoolAlreadyExists => "Default pool already exists."
                                | ErrPoolNotFound => "Pool does not exist."
                                end |}.

Definition poolRequest (name : string) (form : Values_) : PoolRequest :=
  {| urlQuery := [(":name", [name])]; parsedForm := form; parseFormError := false |}.

(** What the store answers to a call that changes it. *)
Definition storeAnswer (env : PoolEnv) (c : PoolCall) : option PoolError :=
  match c with
  | AddPool opts => provision_AddPool env opts
  | RemovePool name => provision_RemovePool env name
  | AddTeamsToPool name teams => provision_AddTeamsToPool env name teams
  | RemoveTeamsFromPool name teams => provision_RemoveTeamsFromPool env name teams
  | PoolUpdate name query force => provision_PoolUpdate env name query force
  | _ => None
  end.

(** The same grants as [twoTeams] for reading team events, and grants to
    update them besides. *)
Definition twoTeamsUpdater : Token :=
  {| GetUserName := "alice";
     Grants := fun s => match s with
                        | PermTeamReadEvents =>
                            [Context CtxTeam "alpha"; Context CtxPool "pool1";
                             Context CtxTeam "beta"]
                        | PermTeamUpdateEvents => [Context CtxGlobal ""]
                        | _ => []
                        end |}.

(** Tokens whose only context for the read-events scheme of a kind is of
    another type than the kind's own. *)
Definition teamReaderOfPool : Token :=
  tokenWith "alice" PermTeamReadEvents [Context CtxPool "pool1"].
Definition poolReaderOfTeam : Token :=
  tokenWith "alice" PermPoolReadEvents [Context CtxTeam "alpha"].
Definition machineReaderOfTeam : Token :=
  tokenWith "alice" PermMachineReadEvents [Context CtxTeam "alpha"].

(** ** What the listings of the owning stores select *)

(** The contexts that the checks build for an application, a service and
    a service instance. *)
Definition appContexts (a : App) : list PermissionContext :=
  Contexts CtxTeam (App_Teams a)
    ++ [Context CtxApp (App_Name a); Context CtxPool (App_Pool a)].

Definition serviceContexts (s : Service) : list PermissionContext :=
  Contexts CtxTeam (Service_OwnerTeams s) ++ [Context CtxService (Service_Name s)].

Definition instanceContexts (si : ServiceInstance) : list PermissionContext :=
  Contexts CtxTeam (SI_Teams si)
    ++ [Context CtxServiceInstance
          (serviceIntancePermName (SI_ServiceName si) (SI_Name si))].

(** Modelled from the spec: the listing operations of the owning stores
    ([app.List] with [appFilterByContext], [provisionReadableServices],
    [readableInstances]) are declared in other packages; section 4.2 has
    them "filtered by the actor's contexts".  A listing that is given
    [contexts] selects an entity whose contexts are [own] when one of
    [contexts] is Global or is one of [own].  It is used as a condition on
    the stores only. *)
Definition selectedBy (contexts own : list PermissionContext) : bool :=
  existsb (fun c => isGlobal c || existsb (PermissionContext_eqb c) own) contexts.

Definition unit1 : Unit_ := {| Unit_ID := "unit1" |}.

Definition mysqlProd : ServiceInstance :=
  {| SI_Name := "prod"; SI_ServiceName := "mysql"; SI_Teams := ["alpha"] |}.

Definition mysql : Service :=
  {| Service_Name := "mysql"; Service_OwnerTeams := ["alpha"] |}.

(** A store that lists and resolves the application [myapp] with its unit
    [unit1], the service [mysql] and its instance [mysqlProd]. *)
Definition envListed : Env :=
  {| app_List := fun _ => Ok [myapp];
     app_Units := fun _ => Ok [unit1];
     provisionReadableServices := fun _ _ => Ok [mysql];
     readableInstances := fun _ _ => Ok [mysqlProd];
     NodeProvisioner := None;
     getAppFromContext := fun name =>
       if String.eqb name "myapp" then Ok myapp else notFound;
     auth_GetTeam := auth_GetTeam emptyEnv;
     getService := fun name =>
       if String.eqb name "mysql" then Ok mysql else notFound;
     getServiceInstanceOrError := fun serviceName name =>
       if String.eqb serviceName "mysql" && String.eqb name "prod"
       then Ok mysqlProd else notFound;
     provision_GetPoolByName := provision_GetPoolByName emptyEnv;
     GetAppFromUnitID := fun id =>
       if String.eqb id "unit1" then Ok myapp else notFound;
     event_GetByID := event_GetByID emptyEnv;
     TryCancel := TryCancel emptyEnv;
     event_List := event_List emptyEnv;
     DecodeValues := DecodeValues emptyEnv;
     PruneUserValues := PruneUserValues emptyEnv;
     errorText := errorText emptyEnv |}.

(** A token for the team "alpha" on every read-events scheme. *)
Definition alphaReader : Token :=
  {| GetUserName := "alice";
     Grants := fun s => match s with
                        | PermAppReadEvents | PermServiceReadEvents
                        | PermServiceInstanceReadEvents => [Context CtxTeam "alpha"]
                        | _ => []
                        end |}.

(** * Properties *)

(** ** Equality tests *)

Lemma contextType_eqb_eq a b : contextType_eqb a b = true <-> a = b.
Proof. destruct a, b; simpl; split; intros H; try reflexivity; discriminate H. Qed.

Lemma PermissionContext_eqb_eq a b : PermissionContext_eqb a b = true <-> a = b.
Proof.
  destruct a as [ta va], b as [tb vb]; unfold PermissionContext_eqb; simpl.
  rewrite andb_true_iff, contextType_eqb_eq, String.eqb_eq.
  split; [intros [-> ->]; reflexivity | intros H; injection H; auto].
Qed.

Lemma TargetType_eqb_eq a b : TargetType_eqb a b = true <-> a = b.
Proof.
  destruct a, b; simpl; split; intros H;
    try reflexivity; try discriminate H.
  - apply String.eqb_eq in H. now subst.
  - injection H as ->. apply String.eqb_refl.
Qed.

(** The registry holds exactly one checker per key. *)
Lemma evtPermMap_get_In k c : evtPermMap_get k = Some c <-> In (k, c) evtPermMap.
Proof.
  split.
  - destruct k; cbn; intros H; try discriminate H;
      injection H as <-; simpl; tauto.
  - simpl. intros H.
    repeat (destruct H as [H | H]; [injection H as <- <-; reflexivity |]).
    contradiction.
Qed.

(** ** The monad *)

Lemma result_bind {A B} (m : M A) (f : A -> M B) :
  result (bind m f) = match result m with
                      | Ok a => result (f a)
                      | Err e => Err e
                      end.
Proof.
  destruct m as [tr [a | e]]; simpl; [destruct (f a); reflexivity | reflexivity].
Qed.

Lemma trace_bind {A B} (m : M A) (f : A -> M B) :
  trace (bind m f) = match result m with
                     | Ok a => trace m ++ trace (f a)
                     | Err _ => trace m
                     end.
Proof.
  destruct m as [tr [a | e]]; simpl; [destruct (f a); reflexivity | reflexivity].
Qed.

(** ** Slices and the loops of the filters *)

Lemma appendAll_elems vals xs : elems (appendAll vals xs) = elems vals ++ xs.
Proof.
  revert vals. induction xs as [| x xs IH]; intros vals; simpl.
  - now rewrite app_nil_r.
  - rewrite IH. simpl. now rewrite <- app_assoc.
Qed.

Lemma appendAll_Some l xs : appendAll (Some l) xs = Some (l ++ xs).
Proof.
  revert l. induction xs as [| x xs IH]; intros l.
  - simpl. now rewrite app_nil_r.
  - change (appendAll (Some l) (x :: xs)) with (appendAll (Some (l ++ [x])) xs).
    rewrite IH. now rewrite <- app_assoc.
Qed.

Lemma appendAll_cons vals x xs : appendAll vals (x :: xs) = Some (elems vals ++ x :: xs).
Proof.
  change (appendAll vals (x :: xs)) with (appendAll (Some (elems vals ++ [x])) xs).
  rewrite appendAll_Some. now rewrite <- app_assoc.
Qed.

Lemma appendAll_nonempty xs : xs <> [] -> appendAll None xs = Some xs.
Proof. destruct xs as [| x xs]; [congruence | intros _; apply appendAll_cons]. Qed.

Lemma contextLoop_global own contexts vals :
  existsb isGlobal contexts = true -> contextLoop own contexts vals = None.
Proof.
  revert vals. induction contexts as [| c cs IH]; intros vals H; simpl in *.
  - discriminate H.
  - unfold isGlobal in H at 1.
    destruct (contextType_eqb (CtxType c) CtxGlobal); [reflexivity |].
    simpl in H. destruct (contextType_eqb (CtxType c) own); now apply IH.
Qed.

Lemma contextLoop_no_global own contexts vals :
  own <> CtxGlobal ->
  existsb isGlobal contexts = false ->
  contextLoop own contexts vals = appendAll vals (valuesOfType own contexts).
Proof.
  intros Hown. revert vals.
  induction contexts as [| c cs IH]; intros vals H; simpl in *; [reflexivity |].
  apply orb_false_iff in H as [Hc Hcs]. unfold isGlobal in Hc. rewrite Hc.
  unfold valuesOfType. simpl.
  destruct (contextType_eqb (CtxType c) own) eqn:E; simpl.
  - rewrite IH by exact Hcs. reflexivity.
  - now apply IH.
Qed.

Lemma globalLoop_global contexts vals :
  existsb isGlobal contexts = true -> globalLoop contexts vals = None.
Proof.
  induction contexts as [| c cs IH]; intros H; simpl in *; [discriminate H |].
  unfold isGlobal in H at 1.
  destruct (contextType_eqb (CtxType c) CtxGlobal); [reflexivity | now apply IH].
Qed.

Lemma globalLoop_no_global contexts vals :
  existsb isGlobal contexts = false -> globalLoop contexts vals = vals.
Proof.
  induction contexts as [| c cs IH]; intros H; simpl in *; [reflexivity |].
  apply orb_false_iff in H as [Hc Hcs]. unfold isGlobal in Hc. rewrite Hc.
  now apply IH.
Qed.

(** Take the entries of the registry one by one. *)
Ltac each_checker H :=
  simpl in H;
  repeat (destruct H as [H | H]; [injection H as <- <- |]);
  [.. | contradiction].

(** Unfold the [filter] method of a checker down to its contexts. *)
Ltac unfold_filters :=
  cbv [filter appPermChecker teamPermChecker servicePermChecker
       serviceInstancePermChecker poolPermChecker userPermChecker containerPermChecker
       nodePermChecker iaasPermChecker rolePermChecker
       appPermChecker_filter teamPermChecker_filter servicePermChecker_filter
       serviceInstancePermChecker_filter poolPermChecker_filter userPermChecker_filter
       containerPermChecker_filter nodePermChecker_filter iaasPermChecker_filter
       rolePermChecker_filter ContextsForPermission].

(** ** Filters of actors without contexts *)

(** C8.  An actor with no context for the read-events scheme of a kind gets
    an absent scope from the filter of that kind (nil, no entry), without
    any call to a store; the filter of the User kind instead returns the
    scope restricted to the actor's own user name. *)
Theorem zero_contexts_scope (env : Env) (t : Token) (k : TargetType)
    (s : PermissionScheme) (checker : evtPermChecker) :
  In (k, checker) evtPermMap ->
  readScheme k = Some s ->
  ContextsForPermission t s = [] ->
  filter checker env t =
    ret (if TargetType_eqb k TargetTypeUser
         then Some {| FType := TargetTypeUser; Values := Some [GetUserName t] |}
         else None)
  /\ resultScope (filter checker env t) =
       Ok (if TargetType_eqb k TargetTypeUser
           then Restricted [GetUserName t]
           else Absent).
Proof.
  intros Hin Hs Hctx.
  unfold ContextsForPermission in Hctx.
  each_checker Hin; simpl in Hs; injection Hs as <-;
    unfold resultScope; unfold_filters; rewrite Hctx; split; reflexivity.
Qed.

Lemma zero_contexts_scope_witness :
  filter userPermChecker emptyEnv alice =
    ret (Some {| FType := TargetTypeUser; Values := Some ["alice"] |})
  /\ filter teamPermChecker emptyEnv alice = ret None.
Proof.
  split.
  - apply (proj1 (@zero_contexts_scope emptyEnv alice TargetTypeUser PermUserReadEvents
                    userPermChecker (or_intror (or_intror (or_intror (or_intror
                      (or_intror (or_introl eq_refl)))))) eq_refl eq_refl)).
  - apply (proj1 (@zero_contexts_scope emptyEnv alice TargetTypeTeam PermTeamReadEvents
                    teamPermChecker (or_intror (or_introl eq_refl)) eq_refl eq_refl)).
Defined.

(** ** Filters of actors with a Global context *)

Lemma nodeLoop_global env contexts vals nodes :
  (forall ln, NodeProvisioner env = Some ln -> exists ns, ln None = Ok ns) ->
  existsb isGlobal contexts = true ->
  result (nodeLoop env contexts vals nodes) = Ok None.
Proof.
  intros Hlist. revert vals nodes.
  induction contexts as [| c cs IH]; intros vals nodes H; simpl in *; [discriminate H |].
  unfold isGlobal in H at 1.
  destruct (contextType_eqb (CtxType c) CtxGlobal); [reflexivity |].
  simpl in H.
  destruct (contextType_eqb (CtxType c) CtxPool); [| now apply IH].
  rewrite result_bind.
  destruct (is_nil nodes); [| now apply IH].
  destruct (NodeProvisioner env) as [ln |] eqn:E; [| now apply IH].
  destruct (Hlist ln eq_refl) as [ns Hns]. unfold call. simpl. rewrite Hns.
  now apply IH.
Qed.

(** C7, as the code has it.  When the contexts of the read-events scheme of
    a kind include a Global context, the filters of the Team, Pool, IaaS,
    User and Role kinds return an entry without value restriction, whatever
    other contexts there are; so does the filter of the Node kind when the
    node listing does not fail. *)
Theorem global_context_unrestricted (env : Env) (t : Token) (k : TargetType)
    (s : PermissionScheme) (checker : evtPermChecker) :
  In (k, checker) evtPermMap ->
  readScheme k = Some s ->
  existsb isGlobal (ContextsForPermission t s) = true ->
  (directContextKind k = true ->
     filter checker env t = ret (Some {| FType := k; Values := None |}))
  /\ (k = TargetTypeNode ->
      (forall ln, NodeProvisioner env = Some ln -> exists ns, ln None = Ok ns) ->
      resultScope (filter checker env t) = Ok Unrestricted
      /\ result (filter checker env t) = Ok (Some {| FType := k; Values := None |})).
Proof.
  intros Hin Hs Hg. unfold ContextsForPermission in Hg.
  each_checker Hin; simpl in Hs; injection Hs as <-;
    (split; [intros Hk; try discriminate Hk | intros Hk; try discriminate Hk]).
  - (* team *)
    unfold_filters. destruct (Grants t PermTeamReadEvents) as [| c cs] eqn:E;
      [discriminate Hg |].
    now rewrite contextLoop_global.
  - (* pool *)
    unfold_filters. destruct (Grants t PermPoolReadEvents) as [| c cs] eqn:E;
      [discriminate Hg |].
    now rewrite contextLoop_global.
  - (* user *)
    unfold_filters. destruct (Grants t PermUserReadEvents) as [| c cs] eqn:E;
      [discriminate Hg |].
    now rewrite globalLoop_global.
  - (* node *)
    intros Hlist. unfold resultScope. unfold_filters.
    destruct (Grants t PermPoolReadEvents) as [| c cs] eqn:E; [discriminate Hg |].
    rewrite result_bind, (nodeLoop_global env (c :: cs) None None Hlist Hg).
    split; reflexivity.
  - (* iaas *)
    unfold_filters. destruct (Grants t PermMachineReadEvents) as [| c cs] eqn:E;
      [discriminate Hg |].
    now rewrite contextLoop_global.
  - (* role *)
    unfold_filters. destruct (Grants t PermRoleReadEvents) as [| c cs] eqn:E;
      [discriminate Hg |].
    now rewrite globalLoop_global.
Qed.

Lemma global_context_unrestricted_witness :
  filter teamPermChecker emptyEnv teamAndGlobal =
    ret (Some {| FType := TargetTypeTeam; Values := None |})
  /\ resultScope (filter nodePermChecker envOneNode poolAndGlobal) = Ok Unrestricted.
Proof.
  split.
  - apply (proj1 (@global_context_unrestricted emptyEnv teamAndGlobal TargetTypeTeam
                    PermTeamReadEvents teamPermChecker
                    (or_intror (or_introl eq_refl)) eq_refl eq_refl)).
    reflexivity.
  - refine (proj1 (proj2 (@global_context_unrestricted envOneNode poolAndGlobal
                    TargetTypeNode PermPoolReadEvents nodePermChecker _ eq_refl eq_refl)
                    eq_refl _)).
    + simpl. tauto.
    + intros ln H. injection H as <-. eexists. reflexivity.
Defined.

(** Against C7 as stated.  The filter of the App kind, for an actor whose
    contexts for the scheme include Global, lists the applications of the store: its scope is
    restricted to their names, not unrestricted. *)
Lemma global_context_app_restricted :
  In (TargetTypeApp, appPermChecker) evtPermMap
  /\ readScheme TargetTypeApp = Some PermAppReadEvents
  /\ existsb isGlobal (ContextsForPermission globalForApps PermAppReadEvents) = true
  /\ result (filter appPermChecker envOneApp globalForApps) =
       Ok (Some {| FType := TargetTypeApp; Values := Some ["myapp"] |})
  /\ resultScope (filter appPermChecker envOneApp globalForApps) <> Ok Unrestricted.
Proof.
  repeat split; try reflexivity.
  - simpl. tauto.
  - discriminate.
Qed.

(** ** Filters of actors with narrower contexts only *)

(** C3, as the code has it.  For an actor whose contexts for the scheme are
    not empty and hold no Global context: the filters of the Team, Pool and
    IaaS kinds return the scope restricted to the values of the contexts of
    the kind's own type, in order, when there is such a context; the filter
    of the User kind returns the scope restricted to the actor's own user
    name. *)
Theorem direct_context_restricted (env : Env) (t : Token) (k : TargetType)
    (s : PermissionScheme) (checker : evtPermChecker) :
  In (k, checker) evtPermMap ->
  readScheme k = Some s ->
  ContextsForPermission t s <> [] ->
  existsb isGlobal (ContextsForPermission t s) = false ->
  (forall own,
      In k [TargetTypeTeam; TargetTypePool; TargetTypeIaas] ->
      ownContextType k = Some own ->
      valuesOfType own (ContextsForPermission t s) <> [] ->
      filter checker env t =
        ret (Some {| FType := k;
                     Values := Some (valuesOfType own (ContextsForPermission t s)) |}))
  /\ (k = TargetTypeUser ->
      filter checker env t =
        ret (Some {| FType := k; Values := Some [GetUserName t] |})).
Proof.
  intros Hin Hs Hne Hg. unfold ContextsForPermission in *.
  each_checker Hin; simpl in Hs; injection Hs as <-;
    (split; [intros own Hk Hown Hv | intros Hk; try discriminate Hk]);
    try (simpl in Hk; repeat (destruct Hk as [Hk | Hk]; try discriminate Hk);
         contradiction).
  - (* team *)
    simpl in Hown. injection Hown as <-. unfold_filters.
    destruct (Grants t PermTeamReadEvents) as [| c cs] eqn:E; [congruence |].
    rewrite contextLoop_no_global by (simpl; tauto || discriminate || exact Hg).
    now rewrite appendAll_nonempty.
  - (* pool *)
    simpl in Hown. injection Hown as <-. unfold_filters.
    destruct (Grants t PermPoolReadEvents) as [| c cs] eqn:E; [congruence |].
    rewrite contextLoop_no_global by (discriminate || exact Hg).
    now rewrite appendAll_nonempty.
  - (* user *)
    unfold_filters.
    destruct (Grants t PermUserReadEvents) as [| c cs] eqn:E; [congruence |].
    now rewrite globalLoop_no_global.
  - (* iaas *)
    simpl in Hown. injection Hown as <-. unfold_filters.
    destruct (Grants t PermMachineReadEvents) as [| c cs] eqn:E; [congruence |].
    rewrite contextLoop_no_global by (discriminate || exact Hg).
    now rewrite appendAll_nonempty.
Qed.

Lemma direct_context_restricted_witness :
  filter teamPermChecker emptyEnv twoTeams =
    ret (Some {| FType := TargetTypeTeam; Values := Some ["alpha"; "beta"] |})
  /\ filter userPermChecker emptyEnv userBob =
       ret (Some {| FType := TargetTypeUser; Values := Some ["alice"] |}).
Proof.
  split.
  - refine (proj1 (@direct_context_restricted emptyEnv twoTeams TargetTypeTeam
                     PermTeamReadEvents teamPermChecker _ eq_refl _ eq_refl)
                  CtxTeam _ eq_refl _).
    + simpl. tauto.
    + discriminate.
    + simpl. tauto.
    + discriminate.
  - refine (proj2 (@direct_context_restricted emptyEnv userBob TargetTypeUser
                     PermUserReadEvents userPermChecker _ eq_refl _ eq_refl)
                  eq_refl).
    + simpl. tauto.
    + discriminate.
Defined.

(** Against C3 as stated, for actors whose contexts are not empty and hold
    no Global context.  The Role and User kinds do not collect the values
    of their contexts: with the single context (Role, "admin") the filter
    of the Role kind returns an entry without value list, and with the
    single context (User, "bob") the filter of the User kind returns the
    actor's own name.  The Team, Pool and IaaS kinds return an entry
    without value list, not the empty allow-list, when no context has the
    kind's own type. *)
Lemma direct_contexts_not_collected :
  (ContextsForPermission roleAdmin PermRoleReadEvents = [Context CtxRole "admin"]
   /\ valuesOfType CtxRole (ContextsForPermission roleAdmin PermRoleReadEvents) = ["admin"]
   /\ resultScope (filter rolePermChecker emptyEnv roleAdmin) = Ok Unrestricted
   /\ resultScope (filter rolePermChecker emptyEnv roleAdmin) <> Ok (Restricted ["admin"]))
  /\ (ContextsForPermission userBob PermUserReadEvents = [Context CtxUser "bob"]
      /\ valuesOfType CtxUser (ContextsForPermission userBob PermUserReadEvents) = ["bob"]
      /\ resultScope (filter userPermChecker emptyEnv userBob) = Ok (Restricted ["alice"])
      /\ resultScope (filter userPermChecker emptyEnv userBob) <> Ok (Restricted ["bob"]))
  /\ (ContextsForPermission teamReaderOfPool PermTeamReadEvents = [Context CtxPool "pool1"]
      /\ valuesOfType CtxTeam (ContextsForPermission teamReaderOfPool PermTeamReadEvents) = []
      /\ resultScope (filter teamPermChecker emptyEnv teamReaderOfPool) = Ok Unrestricted
      /\ resultScope (filter teamPermChecker emptyEnv teamReaderOfPool) <> Ok (Restricted []))
  /\ (ContextsForPermission poolReaderOfTeam PermPoolReadEvents = [Context CtxTeam "alpha"]
      /\ valuesOfType CtxPool (ContextsForPermission poolReaderOfTeam PermPoolReadEvents) = []
      /\ resultScope (filter poolPermChecker emptyEnv poolReaderOfTeam) = Ok Unrestricted
      /\ resultScope (filter poolPermChecker emptyEnv poolReaderOfTeam) <> Ok (Restricted []))
  /\ (ContextsForPermission machineReaderOfTeam PermMachineReadEvents
        = [Context CtxTeam "alpha"]
      /\ valuesOfType CtxIaaS (ContextsForPermission machineReaderOfTeam PermMachineReadEvents)
          = []
      /\ resultScope (filter iaasPermChecker emptyEnv machineReaderOfTeam) = Ok Unrestricted
      /\ resultScope (filter iaasPermChecker emptyEnv machineReaderOfTeam)
          <> Ok (Restricted [])).
Proof.
  repeat split; try reflexivity; discriminate.
Qed.

(** ** The node filter without node listing *)

Lemma nodeLoop_no_provisioner env contexts vals :
  NodeProvisioner env = None ->
  existsb isGlobal contexts = false ->
  nodeLoop env contexts vals None = ret vals.
Proof.
  intros Hnone. revert vals.
  induction contexts as [| c cs IH]; intros vals H; simpl in *; [reflexivity |].
  apply orb_false_iff in H as [Hc Hcs]. unfold isGlobal in Hc. rewrite Hc.
  destruct (contextType_eqb (CtxType c) CtxPool); [| now apply IH].
  rewrite Hnone. unfold nodesOfPool. simpl. rewrite IH by exact Hcs. reflexivity.
Qed.

(** Without node listing and without Global context the node filter
    returns an entry for the Node kind whose value list is nil. *)
Lemma node_filter_no_provisioner env t :
  NodeProvisioner env = None ->
  ContextsForPermission t PermPoolReadEvents <> [] ->
  existsb isGlobal (ContextsForPermission t PermPoolReadEvents) = false ->
  filter nodePermChecker env t = ret (Some {| FType := TargetTypeNode; Values := None |}).
Proof.
  intros Hnone Hne Hg. unfold ContextsForPermission in *. unfold_filters.
  destruct (Grants t PermPoolReadEvents) as [| c cs] eqn:E; [congruence |].
  now rewrite nodeLoop_no_provisioner.
Qed.

(** C2, at a sample input.  The provisioner does not list nodes and the
    actor holds the single context (Pool, "pool1") for the pool-read-events
    scheme: the node filter returns an entry for the Node kind with nil
    values, which is the unrestricted scope and not the absent one, while
    the check of the same checker denies every node event. *)
Theorem node_filter_unsupported_listing :
  NodeProvisioner emptyEnv = None
  /\ ContextsForPermission poolOnly PermPoolReadEvents = [Context CtxPool "pool1"]
  /\ filter nodePermChecker emptyEnv poolOnly =
       ret (Some {| FType := TargetTypeNode; Values := None |})
  /\ resultScope (filter nodePermChecker emptyEnv poolOnly) = Ok Unrestricted
  /\ resultScope (filter nodePermChecker emptyEnv poolOnly) <> Ok Absent
  /\ check nodePermChecker emptyEnv poolOnly (requestFor sampleId "")
           (sampleEvent TargetTypeNode "10.0.0.1") readCheckKind = ret false.
Proof.
  split; [reflexivity |]. split; [reflexivity |].
  assert (H : filter nodePermChecker emptyEnv poolOnly =
              ret (Some {| FType := TargetTypeNode; Values := None |})).
  { apply node_filter_no_provisioner; [reflexivity | discriminate | reflexivity]. }
  unfold resultScope. rewrite H.
  repeat split; try reflexivity. discriminate.
Qed.

(** ** The check of the service-instance checker *)

Lemma cutSlash_none s :
  ~ In "/"%char (list_ascii_of_string s) -> cutSlash s = None.
Proof.
  induction s as [| c s IH]; simpl; intros H; [reflexivity |].
  destruct (Ascii.eqb c "/") eqn:E.
  - apply Ascii.eqb_eq in E. exfalso. apply H. now left.
  - rewrite IH; [reflexivity |]. intros Hin. apply H. now right.
Qed.

Lemma cutSlash_some s :
  In "/"%char (list_ascii_of_string s) -> exists a b, cutSlash s = Some (a, b).
Proof.
  induction s as [| c s IH]; simpl; intros H; [contradiction |].
  destruct (Ascii.eqb c "/") eqn:E; [eauto |].
  destruct H as [H | H].
  - subst c. discriminate E.
  - destruct (IH H) as (a & b & ->). eauto.
Qed.

Lemma cutSlash_append a b :
  ~ In "/"%char (list_ascii_of_string a) ->
  cutSlash (a ++ "/" ++ b) = Some (a, b).
Proof.
  change ("/" ++ b)%string with (String "/" b).
  induction a as [| c a IH]; simpl; intros H; [reflexivity |].
  destruct (Ascii.eqb c "/") eqn:E.
  - apply Ascii.eqb_eq in E. exfalso. apply H. now left.
  - rewrite IH; [reflexivity |]. intros Hin. apply H. now right.
Qed.

(** C9.  For an event about a service instance whose target value holds no
    ["/"], the check of the service-instance checker returns false and no
    error, for every actor and mode, and calls nothing: neither the
    service-instance store nor [permission.Check]. *)
Theorem service_instance_malformed_denied (env : Env) (t : Token) (r : Request)
    (e : Event) (kind : checkKind) (checker : evtPermChecker) :
  In (TargetTypeServiceInstance, checker) evtPermMap ->
  Type_ (ETarget e) = TargetTypeServiceInstance ->
  ~ In "/"%char (list_ascii_of_string (TValue (ETarget e))) ->
  result (check checker env t r e kind) = Ok false
  /\ trace (check checker env t r e kind) = []
  /\ existsb isServiceInstanceLookup (trace (check checker env t r e kind)) = false.
Proof.
  intros Hin _ Hno.
  apply evtPermMap_get_In in Hin. injection Hin as <-.
  cbv [check serviceInstancePermChecker serviceInstancePermChecker_check SplitN2].
  rewrite (cutSlash_none _ Hno). repeat split; reflexivity.
Qed.

Lemma service_instance_malformed_denied_witness :
  result (check serviceInstancePermChecker emptyEnv alice (requestFor sampleId "")
            (sampleEvent TargetTypeServiceInstance "mysql-without-separator")
            updateCheckKind) = Ok false.
Proof.
  refine (proj1 (@service_instance_malformed_denied emptyEnv alice _
                   (sampleEvent TargetTypeServiceInstance "mysql-without-separator")
                   updateCheckKind serviceInstancePermChecker _ eq_refl _)).
  - simpl. tauto.
  - simpl. intros H.
    repeat (destruct H as [H | H]; [discriminate H |]). exact H.
Defined.

(** ** The handlers *)

(** A [check] method only looks up the owning store and calls
    [permission.Check]. *)
Lemma check_calls (env : Env) (t : Token) (r : Request) (e : Event) (kind : checkKind)
    (k : TargetType) (checker : evtPermChecker) :
  evtPermMap_get k = Some checker ->
  forallb isCheckCall (trace (check checker env t r e kind)) = true.
Proof.
  intros Hget. apply evtPermMap_get_In in Hget. each_checker Hget;
    cbv [check appPermChecker teamPermChecker servicePermChecker
         serviceInstancePermChecker poolPermChecker userPermChecker
         containerPermChecker nodePermChecker iaasPermChecker rolePermChecker
         appPermChecker_check teamPermChecker_check servicePermChecker_check
         serviceInstancePermChecker_check poolPermChecker_check userPermChecker_check
         containerPermChecker_check nodePermChecker_check iaasPermChecker_check
         rolePermChecker_check permission_Check call bind ret trace fst].
  - destruct (getAppFromContext env _); reflexivity.
  - destruct (auth_GetTeam env _); reflexivity.
  - destruct (getService env _); reflexivity.
  - destruct (SplitN2 _) as [| v0 [| v1 [| ? ?]]]; try reflexivity.
    destruct (getServiceInstanceOrError env _ _); reflexivity.
  - destruct (provision_GetPoolByName env _); reflexivity.
  - reflexivity.
  - destruct (GetAppFromUnitID env _); reflexivity.
  - destruct (NodeProvisioner env) as [ln |]; [| reflexivity].
    destruct (ln _); reflexivity.
  - reflexivity.
  - reflexivity.
Qed.

Lemma check_never_cancels (env : Env) (t : Token) (r : Request) (e : Event)
    (kind : checkKind) (k : TargetType) (checker : evtPermChecker) :
  evtPermMap_get k = Some checker ->
  existsb isTryCancel (trace (check checker env t r e kind)) = false.
Proof.
  intros Hget. generalize (check_calls env t r e kind k Hget).
  induction (trace (check checker env t r e kind)) as [| c tr IH]; simpl;
    [reflexivity |].
  intros H. apply andb_true_iff in H as [Hc Htr].
  rewrite (IH Htr). destruct c; try reflexivity; discriminate Hc.
Qed.

(** C4, as the code has it.  Fetching one event by id: an id that is not
    an ObjectId in hexadecimal gives the bad-request error (400) and no
    lookup; a well-formed id that the store does not resolve gives the
    not-found error (404); without a checker for the kind of the target, or
    when the Read check returns false, the result is the unauthorized
    error; an error of the check is returned as it is; otherwise the event
    is written as JSON with status 200. *)
Theorem eventInfo_outcomes (env : Env) (t : Token) (r : Request) :
  (IsObjectIdHex (uuid r) = false ->
     eventInfo env t r =
       fail (HTTP StatusBadRequest ("uuid parameter is not ObjectId: " ++ uuid r)))
  /\ (forall err,
        IsObjectIdHex (uuid r) = true ->
        event_GetByID env (uuid r) = Err err ->
        eventInfo env t r =
          ([CallGetByID (uuid r)], Err (HTTP StatusNotFound (Error env err))))
  /\ (forall e,
        IsObjectIdHex (uuid r) = true ->
        event_GetByID env (uuid r) = Ok e ->
        evtPermMap_get (Type_ (ETarget e)) = None ->
        result (eventInfo env t r) = Err ErrUnauthorized)
  /\ (forall e checker,
        IsObjectIdHex (uuid r) = true ->
        event_GetByID env (uuid r) = Ok e ->
        evtPermMap_get (Type_ (ETarget e)) = Some checker ->
        (result (check checker env t r e readCheckKind) = Ok false ->
           result (eventInfo env t r) = Err ErrUnauthorized)
        /\ (forall err, result (check checker env t r e readCheckKind) = Err err ->
              result (eventInfo env t r) = Err err)
        /\ (result (check checker env t r e readCheckKind) = Ok true ->
              result (eventInfo env t r) = Ok (jsonResponse (JSONEvent e))
              /\ Status (jsonResponse (JSONEvent e)) = 200%Z)).
Proof.
  unfold eventInfo. split; [| split; [| split]].
  - intros ->. reflexivity.
  - intros err -> Hget. unfold call, mapErr. rewrite Hget. reflexivity.
  - intros e -> Hget Hnone. simpl negb. cbv iota.
    rewrite result_bind. unfold call, mapErr. rewrite Hget. simpl.
    rewrite Hnone. reflexivity.
  - intros e checker -> Hget Hc. simpl negb. cbv iota.
    rewrite result_bind. unfold call, mapErr. rewrite Hget. simpl.
    rewrite Hc, result_bind.
    split; [| split]; [intros -> | intros err -> | intros ->]; simpl; auto.
Qed.

Lemma eventInfo_outcomes_witness :
  eventInfo emptyEnv alice (requestFor "not-an-id" "") =
    fail (HTTP 400 "uuid parameter is not ObjectId: not-an-id")
  /\ eventInfo emptyEnv alice (requestFor sampleId "") =
       ([CallGetByID sampleId], Err (HTTP 404 "not found"))
  /\ result (eventInfo (envUserEvent None) alice (requestFor sampleId "")) =
       Err ErrUnauthorized
  /\ result (eventInfo (envUserEvent None) globalForUsers (requestFor sampleId "")) =
       Ok (jsonResponse (JSONEvent (sampleEvent TargetTypeUser "bob"))).
Proof.
  split; [| split; [| split]].
  - exact (proj1 (eventInfo_outcomes emptyEnv alice (requestFor "not-an-id" ""))
                 eq_refl).
  - exact (proj1 (proj2 (eventInfo_outcomes emptyEnv alice (requestFor sampleId "")))
                 (ErrOther "not found") eq_refl eq_refl).
  - exact (proj1 (proj2 (proj2 (proj2
             (eventInfo_outcomes (envUserEvent None) alice (requestFor sampleId ""))))
             (sampleEvent TargetTypeUser "bob") userPermChecker
             eq_refl eq_refl eq_refl) eq_refl).
  - exact (proj1 (proj2 (proj2 (proj2 (proj2 (proj2
             (eventInfo_outcomes (envUserEvent None) globalForUsers
                (requestFor sampleId ""))))
             (sampleEvent TargetTypeUser "bob") userPermChecker
             eq_refl eq_refl eq_refl)) eq_refl)).
Defined.

(** Against C4 as stated.  An id that is not an ObjectId gives status 400,
    not 404. *)
Lemma eventInfo_malformed_id_bad_request :
  IsObjectIdHex "not-an-id" = false
  /\ result (eventInfo emptyEnv alice (requestFor "not-an-id" "")) =
       Err (HTTP 400 "uuid parameter is not ObjectId: not-an-id")
  /\ forall m, result (eventInfo emptyEnv alice (requestFor "not-an-id" ""))
               <> Err (HTTP StatusNotFound m).
Proof.
  split; [reflexivity |]. split; [reflexivity |].
  intros m H. discriminate H.
Qed.

Lemma String_eqb_empty s : String.eqb s "" = false <-> s <> "".
Proof. now rewrite String.eqb_neq. Qed.

(** C6, as the code has it.  Cancelling an event.  An id that is not a
    well-formed ObjectId gives bad-request before any lookup.  For a
    well-formed id the steps come in this order: an id the store does not
    resolve gives not-found; then an empty reason gives bad-request, the
    only call made being the lookup of the event (no store of a checker and
    no [permission.Check] is called); then a denial of the Update check
    gives unauthorized and [TryCancel] is not called; only then [TryCancel]
    is called, last, with the reason and the actor's user name, and its
    "not cancelable" error is returned as bad-request.  Conversely
    [TryCancel] is called only when the id is well formed and the three
    steps passed. *)
Theorem eventCancel_order (env : Env) (t : Token) (r : Request) :
  (IsObjectIdHex (uuid r) = false ->
     eventCancel env t r =
       ([], Err (HTTP StatusBadRequest ("uuid parameter is not ObjectId: " ++ uuid r))))
  /\ (IsObjectIdHex (uuid r) = true ->
      (forall err,
          event_GetByID env (uuid r) = Err err ->
          eventCancel env t r =
            ([CallGetByID (uuid r)], Err (HTTP StatusNotFound (Error env err))))
      /\ (forall e,
            event_GetByID env (uuid r) = Ok e ->
            reason r = "" ->
            eventCancel env t r =
              ([CallGetByID (uuid r)], Err (HTTP StatusBadRequest "reason is mandatory"))
            /\ existsb isCheckCall (trace (eventCancel env t r)) = false)
      /\ (forall e,
            event_GetByID env (uuid r) = Ok e ->
            reason r <> "" ->
            (evtPermMap_get (Type_ (ETarget e)) = None
             \/ exists checker,
                  evtPermMap_get (Type_ (ETarget e)) = Some checker
                  /\ result (check checker env t r e updateCheckKind) = Ok false) ->
            result (eventCancel env t r) = Err ErrUnauthorized
            /\ existsb isTryCancel (trace (eventCancel env t r)) = false)
      /\ (forall e checker,
            event_GetByID env (uuid r) = Ok e ->
            reason r <> "" ->
            evtPermMap_get (Type_ (ETarget e)) = Some checker ->
            result (check checker env t r e updateCheckKind) = Ok true ->
            trace (eventCancel env t r) =
              CallGetByID (uuid r)
                :: trace (check checker env t r e updateCheckKind)
                ++ [CallTryCancel e (reason r) (GetUserName t)]
            /\ (TryCancel env e (reason r) (GetUserName t) = Some ErrNotCancelable ->
                result (eventCancel env t r) =
                  Err (HTTP StatusBadRequest (Error env ErrNotCancelable)))
            /\ (TryCancel env e (reason r) (GetUserName t) = None ->
                result (eventCancel env t r) = Ok noContent)))
  /\ (existsb isTryCancel (trace (eventCancel env t r)) = true ->
      exists e checker,
        IsObjectIdHex (uuid r) = true
        /\ event_GetByID env (uuid r) = Ok e
        /\ reason r <> ""
        /\ evtPermMap_get (Type_ (ETarget e)) = Some checker
        /\ result (check checker env t r e updateCheckKind) = Ok true).
Proof.
  unfold eventCancel.
  destruct (IsObjectIdHex (uuid r)) eqn:Hid; simpl negb; cbv iota;
    (split; [| split]); try discriminate;
    try (intros _; reflexivity); try (simpl; discriminate).
  - intros _. split; [| split; [| split]].
    + intros err Hget. unfold call, mapErr. rewrite Hget. reflexivity.
    + intros e Hget Hr. unfold call, mapErr. rewrite Hget, Hr. split; reflexivity.
    + intros e Hget Hr Hdeny. apply String_eqb_empty in Hr.
      unfold call at 1, mapErr at 1. rewrite Hget.
      rewrite result_bind, trace_bind. simpl result. simpl trace. rewrite Hr.
      destruct Hdeny as [Hnone | (checker & Hc & Hfalse)].
      * rewrite Hnone. split; reflexivity.
      * rewrite Hc, result_bind, trace_bind, Hfalse. simpl.
        split; [reflexivity |].
        rewrite app_nil_r. apply (check_never_cancels env t r e updateCheckKind _ Hc).
    + intros e checker Hget Hr Hc Htrue. apply String_eqb_empty in Hr.
      unfold call at 1, mapErr at 1. rewrite Hget.
      rewrite result_bind, trace_bind. simpl result. simpl trace. rewrite Hr, Hc.
      rewrite result_bind, trace_bind, Htrue. simpl negb. cbv iota.
      rewrite result_bind, trace_bind. unfold call, mapErr.
      destruct (TryCancel env e (reason r) (GetUserName t)) as [err |] eqn:Ecancel.
      * simpl. split; [reflexivity |].
        split; [intros H; injection H as ->; reflexivity | discriminate].
      * simpl. split; [reflexivity |].
        split; [discriminate | reflexivity].
  - unfold call at 1, mapErr at 1.
    destruct (event_GetByID env (uuid r)) as [e | err] eqn:Hget;
      [| simpl; discriminate].
    rewrite trace_bind. simpl result. simpl trace.
    destruct (String.eqb (reason r) "") eqn:Hr; [simpl; discriminate |].
    apply String_eqb_empty in Hr.
    destruct (evtPermMap_get (Type_ (ETarget e))) as [checker |] eqn:Hc;
      [| simpl; discriminate].
    rewrite trace_bind.
    destruct (result (check checker env t r e updateCheckKind)) as [[|] | err] eqn:Hres.
    + intros _. exists e, checker. auto.
    + simpl. rewrite app_nil_r.
      rewrite (check_never_cancels env t r e updateCheckKind _ Hc). discriminate.
    + simpl. rewrite (check_never_cancels env t r e updateCheckKind _ Hc). discriminate.
Qed.

Lemma eventCancel_order_witness :
  eventCancel emptyEnv alice (requestFor "not-an-id" "stop") =
    ([], Err (HTTP 400 "uuid parameter is not ObjectId: not-an-id"))
  /\ eventCancel emptyEnv alice (requestFor sampleId "stop") =
       ([CallGetByID sampleId], Err (HTTP 404 "not found"))
  /\ eventCancel (envUserEvent None) alice (requestFor sampleId "") =
       ([CallGetByID sampleId], Err (HTTP 400 "reason is mandatory"))
  /\ result (eventCancel (envUserEvent None) alice (requestFor sampleId "stop")) =
       Err ErrUnauthorized
  /\ result (eventCancel (envUserEvent (Some ErrNotCancelable)) globalForUsers
               (requestFor sampleId "stop")) =
       Err (HTTP 400 "event is not cancelable")
  /\ result (eventCancel (envUserEvent None) globalForUsers
               (requestFor sampleId "stop")) = Ok noContent.
Proof.
  assert (Hreason : reason (requestFor sampleId "stop") <> "") by discriminate.
  split; [| split; [| split; [| split; [| split]]]].
  - exact (proj1 (@eventCancel_order emptyEnv alice (requestFor "not-an-id" "stop"))
                 eq_refl).
  - exact (proj1 (proj1 (proj2 (@eventCancel_order emptyEnv alice
                                  (requestFor sampleId "stop"))) eq_refl)
                 (ErrOther "not found") eq_refl).
  - exact (proj1 (proj1 (proj2 (proj1 (proj2 (@eventCancel_order (envUserEvent None) alice
                                  (requestFor sampleId ""))) eq_refl))
                        (sampleEvent TargetTypeUser "bob") eq_refl eq_refl)).
  - refine (proj1 (proj1 (proj2 (proj2 (proj1 (proj2
              (@eventCancel_order (envUserEvent None) alice
                 (requestFor sampleId "stop"))) eq_refl)))
                         (sampleEvent TargetTypeUser "bob") eq_refl Hreason _)).
    right. exists userPermChecker. split; reflexivity.
  - exact (proj1 (proj2 (proj2 (proj2 (proj2 (proj1 (proj2
             (@eventCancel_order (envUserEvent (Some ErrNotCancelable)) globalForUsers
                (requestFor sampleId "stop"))) eq_refl)))
             (sampleEvent TargetTypeUser "bob") userPermChecker
             eq_refl Hreason eq_refl eq_refl)) eq_refl).
  - exact (proj2 (proj2 (proj2 (proj2 (proj2 (proj1 (proj2
             (@eventCancel_order (envUserEvent None) globalForUsers
                (requestFor sampleId "stop"))) eq_refl)))
             (sampleEvent TargetTypeUser "bob") userPermChecker
             eq_refl Hreason eq_refl eq_refl)) eq_refl).
Defined.

(** Against C6 as stated.  An id that is not a well-formed ObjectId does
    not resolve to a stored event (the store is not even asked), and the
    result is bad-request, not not-found. *)
Lemma eventCancel_malformed_id_bad_request :
  IsObjectIdHex "not-an-id" = false
  /\ eventCancel emptyEnv alice (requestFor "not-an-id" "stop") =
       ([], Err (HTTP 400 "uuid parameter is not ObjectId: not-an-id"))
  /\ (forall id, event_GetByID emptyEnv id = Err (ErrOther "not found"))
  /\ forall m, result (eventCancel emptyEnv alice (requestFor "not-an-id" "stop"))
               <> Err (HTTP StatusNotFound m).
Proof.
  split; [reflexivity |]. split; [reflexivity |]. split; [reflexivity |].
  intros m H. discriminate H.
Qed.

(** ** The combined filter *)

Lemma filterLoop_written (env : Env) (t : Token)
    (entries : list (TargetType * evtPermChecker)) (l : list TargetFilter) :
  snd (filterLoop env t entries (Some l)) = firstError env t entries
  /\ snd (fst (filterLoop env t entries (Some l))) =
       Some (l ++ collected env t (okPrefix env t entries)).
Proof.
  revert l. induction entries as [| [k c] rest IH]; intros l.
  - simpl. now rewrite app_nil_r.
  - cbn [filterLoop firstError okPrefix snd].
    destruct (filter c env t) as [tr [[a |] | e]] eqn:E; cbn [result snd].
    + specialize (IH (l ++ [a])). unfold sappend. cbn [elems].
      destruct (filterLoop env t rest (Some (l ++ [a]))) as [[tr' written] err].
      cbn [fst snd] in *. destruct IH as [-> ->]. split; [reflexivity |].
      unfold collected. cbn [flat_map snd]. rewrite E. cbn [result snd].
      now rewrite <- app_assoc.
    + specialize (IH l).
      destruct (filterLoop env t rest (Some l)) as [[tr' written] err].
      cbn [fst snd] in *. destruct IH as [-> ->]. split; [reflexivity |].
      unfold collected. cbn [flat_map snd]. rewrite E. reflexivity.
    + cbn [fst snd]. split; [reflexivity |]. now rewrite app_nil_r.
Qed.

Lemma okPrefix_all (env : Env) (t : Token) entries :
  firstError env t entries = None -> okPrefix env t entries = entries.
Proof.
  induction entries as [| kc rest IH]; simpl; [reflexivity |].
  destruct (result (filter (snd kc) env t)); [| discriminate].
  intros H. now rewrite IH.
Qed.

Lemma firstError_none (env : Env) (t : Token) entries :
  firstError env t entries = None <->
  forall kc, In kc entries -> exists a, result (filter (snd kc) env t) = Ok a.
Proof.
  induction entries as [| kc rest IH]; simpl.
  - split; [intros _ ? [] | reflexivity].
  - destruct (result (filter (snd kc) env t)) as [a | e] eqn:E.
    + rewrite IH. split.
      * intros H x [<- | Hx]; [eauto | auto].
      * intros H x Hx. apply H. now right.
    + split; [discriminate |].
      intros H. destruct (H kc (or_introl eq_refl)) as [a Ha]. congruence.
Qed.

Lemma firstError_some (env : Env) (t : Token) entries e :
  firstError env t entries = Some e ->
  exists kc, In kc entries /\ result (filter (snd kc) env t) = Err e.
Proof.
  induction entries as [| kc rest IH]; simpl; [discriminate |].
  destruct (result (filter (snd kc) env t)) as [a | e'] eqn:E.
  - intros H. destruct (IH H) as (x & Hx & Hres). exists x. auto.
  - intros H. injection H as ->. exists kc. auto.
Qed.

Lemma filterForPerms_returned (entries : list (TargetType * evtPermChecker))
    (env : Env) (t : Token) (f : option Filter) :
  returned (filterForPerms entries env t f) =
    match firstError env t entries with
    | Some e => Err e
    | None =>
        Ok {| UserFields := match f with
                            | Some f' => UserFields f'
                            | None => []
                            end;
              AllowedTargets := Some (collected env t entries) |}
    end.
Proof.
  unfold filterForPerms.
  destruct (filterLoop_written env t entries []) as [Herr Hw].
  destruct (filterLoop env t entries (Some [])) as [[tr written] err].
  simpl in *. subst err written.
  destruct (firstError env t entries) eqn:E; [reflexivity |].
  rewrite (okPrefix_all _ _ _ E). destruct f; reflexivity.
Qed.

(** The state in which a run leaves the filter object: the fields of the
    caller and the target filters of the checkers that came before the
    first failure. *)
Lemma filterForPerms_pointee (entries : list (TargetType * evtPermChecker))
    (env : Env) (t : Token) (f : option Filter) :
  pointee (filterForPerms entries env t f) =
    {| UserFields := match f with
                     | Some f' => UserFields f'
                     | None => []
                     end;
       AllowedTargets := Some (collected env t (okPrefix env t entries)) |}.
Proof.
  unfold filterForPerms.
  destruct (filterLoop_written env t entries []) as [Herr Hw].
  destruct (filterLoop env t entries (Some [])) as [[tr written] err].
  simpl in *. subst written. destruct f; reflexivity.
Qed.

Lemma filterForPerms_calls (entries : list (TargetType * evtPermChecker))
    (env : Env) (t : Token) (f : option Filter) :
  calls (filterForPerms entries env t f) = fst (fst (filterLoop env t entries (Some []))).
Proof.
  unfold filterForPerms.
  destruct (filterLoop env t entries (Some [])) as [[tr written] err]. reflexivity.
Qed.

Lemma collected_In (env : Env) (t : Token) entries a :
  In a (collected env t entries) <->
  exists kc, In kc entries /\ result (filter (snd kc) env t) = Ok (Some a).
Proof.
  unfold collected. rewrite in_flat_map. split.
  - intros (kc & Hin & Ha). exists kc. split; [exact Hin |].
    destruct (result (filter (snd kc) env t)) as [[b |] | e]; simpl in Ha;
      try contradiction.
    destruct Ha as [-> | []]. reflexivity.
  - intros (kc & Hin & Ha). exists kc. split; [exact Hin |].
    rewrite Ha. now left.
Qed.

(** C5.  Building the listing filter is fail-closed, for every order
    [entries] in which one run ranges over the registry.  When the filter
    of some checker fails, [filterForPerms] returns no filter but the error
    of a checker (the first failing one in that order), which is that error
    when no checker fails otherwise.  When no filter fails, the result
    holds, as allowed targets, exactly the target filters that the checkers
    returned non-nil, each once. *)
Theorem filterForPerms_fail_closed (env : Env) (t : Token)
    (entries : list (TargetType * evtPermChecker)) (f : option Filter) :
  Permutation evtPermMap entries ->
  (forall k c e,
      In (k, c) evtPermMap ->
      result (filter c env t) = Err e ->
      (exists k' c' e',
          In (k', c') evtPermMap
          /\ result (filter c' env t) = Err e'
          /\ returned (filterForPerms entries env t f) = Err e')
      /\ ((forall k' c' e',
              In (k', c') evtPermMap -> result (filter c' env t) = Err e' -> e' = e) ->
          returned (filterForPerms entries env t f) = Err e))
  /\ ((forall k c, In (k, c) evtPermMap -> exists a, result (filter c env t) = Ok a) ->
      exists flt,
        returned (filterForPerms entries env t f) = Ok flt
        /\ AllowedTargets flt = Some (collected env t entries)
        /\ Permutation (collected env t evtPermMap) (collected env t entries)
        /\ forall a,
             In a (collected env t entries) <->
             exists k c, In (k, c) evtPermMap /\ result (filter c env t) = Ok (Some a)).
Proof.
  intros Hperm. rewrite filterForPerms_returned. split.
  - intros k c e Hin Herr.
    destruct (firstError env t entries) as [e0 |] eqn:Efirst.
    + destruct (firstError_some _ _ _ Efirst) as ([k' c'] & Hin' & Hres').
      apply (Permutation_in _ (Permutation_sym Hperm)) in Hin'.
      split.
      * exists k', c', e0. auto.
      * intros Huniq. f_equal. exact (Huniq k' c' e0 Hin' Hres').
    + exfalso.
      destruct (proj1 (firstError_none env t entries) Efirst (k, c)
                  (Permutation_in _ Hperm Hin)) as [a Ha].
      simpl in Ha. congruence.
  - intros Hok.
    assert (Efirst : firstError env t entries = None).
    { apply firstError_none. intros [k c] Hin. apply (Hok k c).
      exact (Permutation_in _ (Permutation_sym Hperm) Hin). }
    rewrite Efirst. eexists. split; [reflexivity |]. split; [reflexivity |].
    split.
    + unfold collected. now apply Permutation_flat_map.
    + intros a. rewrite collected_In. split.
      * intros ([k c] & Hin & Ha). exists k, c. split; [| exact Ha].
        exact (Permutation_in _ (Permutation_sym Hperm) Hin).
      * intros (k & c & Hin & Ha). exists (k, c). split; [| exact Ha].
        exact (Permutation_in _ Hperm Hin).
Qed.

Lemma filterForPerms_fail_closed_witness :
  returned (filterForPerms (rev evtPermMap) failingApps appsAndTeams (Some forgedFilter)) =
    Err (ErrOther "database is down")
  /\ exists flt,
       returned (filterForPerms (rev evtPermMap) emptyEnv twoTeams None) = Ok flt
       /\ AllowedTargets flt =
            Some [ {| FType := TargetTypeUser; Values := Some ["alice"] |};
                   {| FType := TargetTypeTeam; Values := Some ["alpha"; "beta"] |} ].
Proof.
  split.
  - refine (proj2 (proj1 (@filterForPerms_fail_closed failingApps appsAndTeams
                            (rev evtPermMap) (Some forgedFilter) (Permutation_rev _))
                         TargetTypeApp appPermChecker (ErrOther "database is down")
                         _ eq_refl) _).
    + simpl. tauto.
    + intros k' c' e' Hin. each_checker Hin; simpl; intros H;
        (discriminate H || (injection H as <-; reflexivity)).
  - destruct (proj2 (@filterForPerms_fail_closed emptyEnv twoTeams
                       (rev evtPermMap) None (Permutation_rev _)))
      as (flt & Hres & Hallowed & _).
    + intros k c Hin. each_checker Hin; eexists; reflexivity.
    + exists flt. split; [exact Hres | exact Hallowed].
Defined.

(** After a failure nothing is returned, and the filter object of the
    caller is left with the target filters written before the failure. *)
Lemma filterForPerms_failure_object :
  Permutation evtPermMap teamFirst
  /\ returned (filterForPerms teamFirst failingApps appsAndTeams (Some forgedFilter)) =
       Err (ErrOther "database is down")
  /\ AllowedTargets
       (pointee (filterForPerms teamFirst failingApps appsAndTeams (Some forgedFilter))) =
       Some [ {| FType := TargetTypeTeam; Values := Some ["alpha"] |} ].
Proof.
  split; [apply perm_swap | split; reflexivity].
Qed.

(** C10.  The allowed targets of the combined filter do not depend on the
    filter given by the caller: for every actor, store and order of the
    run, two calls of [filterForPerms] with any two filters (nil, or with
    allowed targets of their own) make the same calls, leave the same
    allowed targets in the filter object, and either fail with the same
    error or return the same allowed targets, which are the target filters
    returned by the checkers for the token. *)
Theorem filterForPerms_ignores_input (env : Env) (t : Token)
    (entries : list (TargetType * evtPermChecker)) (f1 f2 : option Filter) :
  calls (filterForPerms entries env t f1) = calls (filterForPerms entries env t f2)
  /\ AllowedTargets (pointee (filterForPerms entries env t f1)) =
       AllowedTargets (pointee (filterForPerms entries env t f2))
  /\ match returned (filterForPerms entries env t f1),
           returned (filterForPerms entries env t f2) with
     | Ok a, Ok b =>
         AllowedTargets a = AllowedTargets b
         /\ AllowedTargets a = Some (collected env t entries)
     | Err e1, Err e2 => e1 = e2
     | _, _ => False
     end.
Proof.
  split; [| split].
  - now rewrite !filterForPerms_calls.
  - now rewrite !filterForPerms_pointee.
  - rewrite !filterForPerms_returned.
    destruct (firstError env t entries); simpl; auto.
Qed.

(** A filter that names allowed targets of its own changes nothing. *)
Lemma filterForPerms_forged_filter :
  exists flt,
    returned (filterForPerms evtPermMap envOneApp twoTeams (Some forgedFilter)) = Ok flt
    /\ AllowedTargets flt =
         Some [ {| FType := TargetTypeTeam; Values := Some ["alpha"; "beta"] |};
                {| FType := TargetTypeUser; Values := Some ["alice"] |} ]
    /\ UserFields flt = UserFields forgedFilter.
Proof. eexists. repeat split. Qed.

(** ** Listing and check *)

Lemma Check_In (t : Token) (s : PermissionScheme) (ctxs : list PermissionContext) g :
  In g (ContextsForPermission t s) -> In g ctxs -> Check t s ctxs = true.
Proof.
  intros Hg Hin. unfold Check. apply existsb_exists. exists g. split; [exact Hg |].
  apply orb_true_iff. right. apply existsb_exists. exists g. split; [exact Hin |].
  now apply PermissionContext_eqb_eq.
Qed.

Lemma Check_Global (t : Token) (s : PermissionScheme) (ctxs : list PermissionContext) :
  existsb isGlobal (ContextsForPermission t s) = true -> Check t s ctxs = true.
Proof.
  intros H. apply existsb_exists in H as (g & Hg & Hglobal).
  unfold Check. apply existsb_exists. exists g. split; [exact Hg |].
  now rewrite Hglobal.
Qed.

Lemma Check_no_grant (t : Token) (s : PermissionScheme) (ctxs : list PermissionContext) :
  ContextsForPermission t s = [] -> Check t s ctxs = false.
Proof. unfold Check. now intros ->. Qed.

Lemma valuesOfType_In own contexts X :
  In X (valuesOfType own contexts) -> In (Context own X) contexts.
Proof.
  unfold valuesOfType. rewrite in_map_iff. intros ([ty v] & Hv & Hin).
  apply filter_In in Hin as [Hin Hty]. simpl in *.
  apply contextType_eqb_eq in Hty. now subst.
Qed.

(** The values a team, pool or iaas filter lists are values of contexts of
    the kind's own type. *)
Lemma contextLoop_values own contexts vs X :
  own <> CtxGlobal ->
  contextLoop own contexts None = Some vs ->
  In X vs ->
  In (Context own X) contexts.
Proof.
  intros Hown Hloop HX.
  destruct (existsb isGlobal contexts) eqn:Hg.
  - rewrite contextLoop_global in Hloop by exact Hg. discriminate Hloop.
  - rewrite contextLoop_no_global in Hloop by assumption.
    apply valuesOfType_In.
    assert (E : elems (appendAll None (valuesOfType own contexts)) = vs)
      by now rewrite Hloop.
    rewrite appendAll_elems in E. simpl in E. now rewrite E.
Qed.

Lemma nodesOfPool_In nodes pool X :
  In X (nodesOfPool nodes pool) ->
  exists n, In n (elems nodes) /\ Node_Pool n = pool /\ Node_Address n = X.
Proof.
  unfold nodesOfPool. rewrite in_map_iff. intros (n & Haddr & Hin).
  apply filter_In in Hin as [Hin Hpool]. apply String.eqb_eq in Hpool.
  exists n. auto.
Qed.

(** The addresses a node filter lists belong to nodes of the listing whose
    pool is the value of a Pool context. *)
Lemma nodeLoop_values env contexts vals nodes vs X :
  (nodes = None \/ exists ln, NodeProvisioner env = Some ln /\ ln None = Ok nodes) ->
  result (nodeLoop env contexts vals nodes) = Ok (Some vs) ->
  In X vs ->
  In X (elems vals)
  \/ exists ctx ln all n,
       In ctx contexts /\ CtxType ctx = CtxPool
       /\ NodeProvisioner env = Some ln /\ ln None = Ok all
       /\ In n (elems all) /\ Node_Pool n = Value ctx /\ Node_Address n = X.
Proof.
  revert vals nodes.
  induction contexts as [| c cs IH]; intros vals nodes Hinv Hres HX; simpl in Hres.
  - injection Hres as ->. now left.
  - destruct (contextType_eqb (CtxType c) CtxGlobal); [discriminate Hres |].
    destruct (contextType_eqb (CtxType c) CtxPool) eqn:Hpool.
    + apply contextType_eqb_eq in Hpool. rewrite result_bind in Hres.
      assert (Hstep : forall nodes',
                 (nodes' = None
                  \/ exists ln, NodeProvisioner env = Some ln /\ ln None = Ok nodes') ->
                 result (nodeLoop env cs (appendAll vals (nodesOfPool nodes' (Value c)))
                           nodes') = Ok (Some vs) ->
                 In X (elems vals)
                 \/ exists ctx ln all n,
                      In ctx (c :: cs) /\ CtxType ctx = CtxPool
                      /\ NodeProvisioner env = Some ln /\ ln None = Ok all
                      /\ In n (elems all) /\ Node_Pool n = Value ctx
                      /\ Node_Address n = X).
      { intros nodes' Hinv' Hres'.
        destruct (IH _ _ Hinv' Hres' HX) as [Hin | (ctx & ln & all & n & Hc & H)].
        - rewrite appendAll_elems in Hin. apply in_app_or in Hin as [Hin | Hin];
            [now left |].
          apply nodesOfPool_In in Hin as (n & Hn & Hp & Ha).
          destruct Hinv' as [-> | (ln & Hln & Hall)]; [contradiction |].
          right. exists c, ln, nodes', n. simpl. auto 10.
        - right. exists ctx, ln, all, n. simpl. tauto. }
      destruct (is_nil nodes) eqn:Hnil.
      * destruct (NodeProvisioner env) as [ln |] eqn:Hln.
        -- unfold call in Hres. simpl in Hres.
           destruct (ln None) as [all | err] eqn:Hall; [| discriminate Hres].
           apply (Hstep all); [right; exists ln; auto | exact Hres].
        -- simpl in Hres. apply (Hstep nodes); [| exact Hres].
           destruct nodes; [discriminate Hnil | now left].
      * simpl in Hres. apply (Hstep nodes); assumption.
    + destruct (IH _ _ Hinv Hres HX) as [Hin | (ctx & ln & all & n & Hc & H)];
        [now left |].
      right. exists ctx, ln, all, n. simpl. tauto.
Qed.

Lemma appendAll_None_In xs vs (X : string) :
  appendAll None xs = Some vs -> In X vs -> In X xs.
Proof.
  intros H HX.
  assert (E : elems (appendAll None xs) = vs) by now rewrite H.
  rewrite appendAll_elems in E. simpl in E. now rewrite E.
Qed.

(** The identifiers a container filter lists are identifiers of units of
    the listed applications. *)
Lemma containerLoop_values env apps vals vs X :
  result (containerLoop env apps vals) = Ok (Some vs) ->
  In X vs ->
  In X (elems vals)
  \/ exists a units u,
       In a apps /\ app_Units env a = Ok units /\ In u units /\ Unit_ID u = X.
Proof.
  revert vals. induction apps as [| a rest IH]; intros vals Hres HX.
  - simpl in Hres. injection Hres as ->. now left.
  - cbn [containerLoop] in Hres. rewrite result_bind in Hres.
    unfold call in Hres. cbn [result snd] in Hres.
    destruct (app_Units env a) as [units | err] eqn:Hu; [| discriminate Hres].
    destruct (IH _ Hres HX) as [Hin | (a' & units' & u & Ha & Hu' & Hin & Hid)].
    + rewrite appendAll_elems in Hin. apply in_app_or in Hin as [Hin | Hin];
        [now left |].
      right. apply in_map_iff in Hin as (u & Hid & Hin).
      exists a, units, u. simpl. auto.
    + right. exists a', units', u. simpl. auto.
Qed.

(** C1, as the code has it.  When [X] is among the values of the entry
    that the filter of a kind returns for an actor, the Read check of that
    kind's checker on an event about [X] returns true: for the IaaS kind
    always; for the Team and Pool kinds when the store resolves [X] to the
    team or pool of that name; for the Node kind when the listing by the
    address [X] begins with a node of the pool that the full listing gives
    for that address; for the App, Service, ServiceInstance and Container
    kinds when the listing of the owning store lists only entities that one
    of the contexts it is given selects, and the lookup of [X] returns the
    listed entity ([X] being the name of an application or service, the
    composite name of a service instance whose service name holds no ["/"],
    or the identifier of a unit of a listed application).  The filter of the
    Role kind never lists a value.  For the User kind the Read check denies
    every listed value. *)
Theorem listing_check_consistent (env : Env) (t : Token) (r : Request) (e : Event)
    (k : TargetType) (checker : evtPermChecker) (tf : TargetFilter)
    (vs : list string) (X : string) :
  In (k, checker) evtPermMap ->
  result (filter checker env t) = Ok (Some tf) ->
  Values tf = Some vs ->
  In X vs ->
  ETarget e = {| Type_ := k; TValue := X |} ->
  (k = TargetTypeIaas ->
     result (check checker env t r e readCheckKind) = Ok true)
  /\ (k = TargetTypeTeam ->
      forall tm, auth_GetTeam env X = Ok tm -> Team_Name tm = X ->
      result (check checker env t r e readCheckKind) = Ok true)
  /\ (k = TargetTypePool ->
      forall p, provision_GetPoolByName env X = Ok p -> Pool_Name p = X ->
      result (check checker env t r e readCheckKind) = Ok true)
  /\ (k = TargetTypeNode ->
      (forall ln all n,
          NodeProvisioner env = Some ln -> ln None = Ok all ->
          In n (elems all) -> Node_Address n = X ->
          exists n' rest,
            ln (Some [X]) = Ok (Some (n' :: rest)) /\ Node_Pool n' = Node_Pool n) ->
      result (check checker env t r e readCheckKind) = Ok true)
  /\ (k = TargetTypeApp ->
      forall apps,
        app_List env (ContextsForPermission t PermAppReadEvents) = Ok apps ->
        (forall a, In a apps ->
           selectedBy (ContextsForPermission t PermAppReadEvents) (appContexts a) = true) ->
        (forall a, In a apps -> App_Name a = X -> getAppFromContext env X = Ok a) ->
        result (check checker env t r e readCheckKind) = Ok true)
  /\ (k = TargetTypeService ->
      forall services,
        provisionReadableServices env t (ContextsForPermission t PermServiceReadEvents)
          = Ok services ->
        (forall sv, In sv services ->
           selectedBy (ContextsForPermission t PermServiceReadEvents)
             (serviceContexts sv) = true) ->
        (forall sv, In sv services -> Service_Name sv = X -> getService env X = Ok sv) ->
        result (check checker env t r e readCheckKind) = Ok true)
  /\ (k = TargetTypeServiceInstance ->
      forall instances,
        readableInstances env t (ContextsForPermission t PermServiceInstanceReadEvents)
          = Ok instances ->
        (forall si, In si instances ->
           selectedBy (ContextsForPermission t PermServiceInstanceReadEvents)
             (instanceContexts si) = true) ->
        (forall si, In si instances ->
           ~ In "/"%char (list_ascii_of_string (SI_ServiceName si))) ->
        (forall si, In si instances ->
           getServiceInstanceOrError env (SI_ServiceName si) (SI_Name si) = Ok si) ->
        result (check checker env t r e readCheckKind) = Ok true)
  /\ (k = TargetTypeContainer ->
      forall apps,
        app_List env (ContextsForPermission t PermAppReadEvents) = Ok apps ->
        (forall a, In a apps ->
           selectedBy (ContextsForPermission t PermAppReadEvents) (appContexts a) = true) ->
        (forall a units u,
           In a apps -> app_Units env a = Ok units -> In u units -> Unit_ID u = X ->
           GetAppFromUnitID env X = Ok a) ->
        result (check checker env t r e readCheckKind) = Ok true)
  /\ k <> TargetTypeRole
  /\ (k = TargetTypeUser ->
      result (check checker env t r e readCheckKind) = Ok false).
Proof.
  intros Hin Hres Hvals HX Htarget.
  assert (HXe : TValue (ETarget e) = X) by now rewrite Htarget.
  each_checker Hin;
    repeat match goal with |- _ /\ _ => split end;
    try (intros Hk; discriminate Hk).
  - (* app *)
    intros _. revert Hres. unfold_filters.
    destruct (Grants t PermAppReadEvents) as [| c cs] eqn:E; [discriminate |].
    intros Hres apps Happs Hsel Hget.
    rewrite result_bind in Hres. unfold call in Hres. cbn [result snd] in Hres.
    rewrite Happs in Hres.
    destruct apps as [| a0 rest]; [discriminate Hres |].
    cbn [result ret snd] in Hres. injection Hres as <-. cbn [Values] in Hvals.
    apply (@appendAll_None_In (map App_Name (a0 :: rest)) vs X Hvals) in HX.
    apply in_map_iff in HX as (a & Hname & Ha).
    cbv [check appPermChecker appPermChecker_check permission_Check perms].
    rewrite result_bind, HXe. unfold call. cbn [result snd].
    rewrite (Hget a Ha Hname). cbn [result snd]. f_equal.
    unfold Check, ContextsForPermission. rewrite E. exact (Hsel a Ha).
  - (* team *)
    intros _ tm Hget Hname. revert Hres. unfold_filters.
    destruct (Grants t PermTeamReadEvents) as [| c cs] eqn:E; [discriminate |].
    cbn [result ret snd]. intros H. injection H as <-. cbn [Values] in Hvals.
    cbv [check teamPermChecker teamPermChecker_check permission_Check perms].
    rewrite result_bind, HXe. unfold call. simpl. rewrite Hget. simpl. f_equal.
    apply Check_In with (g := Context CtxTeam X); [| rewrite Hname; now left].
    unfold ContextsForPermission. rewrite E.
    apply (@contextLoop_values CtxTeam (c :: cs) vs X); [discriminate | exact Hvals | exact HX].
  - (* service *)
    intros _. revert Hres. unfold_filters.
    destruct (Grants t PermServiceReadEvents) as [| c cs] eqn:E; [discriminate |].
    intros Hres services Hlist Hsel Hget.
    rewrite result_bind in Hres. unfold call in Hres. cbn [result snd] in Hres.
    rewrite Hlist in Hres.
    destruct services as [| s0 rest]; [discriminate Hres |].
    cbn [result ret snd] in Hres. injection Hres as <-. cbn [Values] in Hvals.
    apply (@appendAll_None_In (map Service_Name (s0 :: rest)) vs X Hvals) in HX.
    apply in_map_iff in HX as (sv & Hname & Hsv).
    cbv [check servicePermChecker servicePermChecker_check permission_Check perms].
    rewrite result_bind, HXe. unfold call. cbn [result snd].
    rewrite (Hget sv Hsv Hname). cbn [result snd]. f_equal.
    unfold Check, ContextsForPermission. rewrite E. exact (Hsel sv Hsv).
  - (* service instance *)
    intros _. revert Hres. unfold_filters.
    destruct (Grants t PermServiceInstanceReadEvents) as [| c cs] eqn:E; [discriminate |].
    intros Hres instances Hlist Hsel Hslash Hget.
    rewrite result_bind in Hres. unfold call in Hres. cbn [result snd] in Hres.
    rewrite Hlist in Hres.
    destruct instances as [| i0 rest]; [discriminate Hres |].
    cbn [result ret snd] in Hres. injection Hres as <-. cbn [Values] in Hvals.
    apply (@appendAll_None_In
             (map (fun s => serviceIntancePermName (SI_ServiceName s) (SI_Name s))
                  (i0 :: rest)) vs X Hvals) in HX.
    apply in_map_iff in HX as (si & Hname & Hsi).
    cbv [check serviceInstancePermChecker serviceInstancePermChecker_check SplitN2
         permission_Check perms].
    rewrite HXe, <- Hname. unfold serviceIntancePermName at 1.
    rewrite (cutSlash_append _ _ (Hslash si Hsi)).
    rewrite result_bind. unfold call. cbn [result snd].
    rewrite (Hget si Hsi). cbn [result snd]. f_equal.
    unfold Check, ContextsForPermission. rewrite E. exact (Hsel si Hsi).
  - (* pool *)
    intros _ p Hget Hname. revert Hres. unfold_filters.
    destruct (Grants t PermPoolReadEvents) as [| c cs] eqn:E; [discriminate |].
    cbn [result ret snd]. intros H. injection H as <-. cbn [Values] in Hvals.
    cbv [check poolPermChecker poolPermChecker_check permission_Check perms].
    rewrite result_bind, HXe. unfold call. simpl. rewrite Hget. simpl. f_equal.
    apply Check_In with (g := Context CtxPool X); [| rewrite Hname; now left].
    unfold ContextsForPermission. rewrite E.
    apply (@contextLoop_values CtxPool (c :: cs) vs X); [discriminate | exact Hvals | exact HX].
  - (* user: a value is listed only without Global context *)
    intros _. revert Hres. unfold_filters.
    cbv [check userPermChecker userPermChecker_check permission_Check perms call result snd
         Check ContextsForPermission].
    destruct (Grants t PermUserReadEvents) as [| c cs] eqn:E; [reflexivity |].
    cbn [ret]. intros H. injection H as <-. cbn [Values] in Hvals.
    change (globalLoop (c :: cs) (Some [GetUserName t]) = Some vs) in Hvals.
    destruct (existsb isGlobal (c :: cs)) eqn:Hg.
    + rewrite globalLoop_global in Hvals by exact Hg. discriminate Hvals.
    + f_equal. clear - Hg. induction (c :: cs) as [| g gs IH]; [reflexivity |].
      cbn [existsb] in *. apply orb_false_iff in Hg as [Hg1 Hg2].
      rewrite Hg1, (IH Hg2). unfold PermissionContext_eqb. cbn [CtxType].
      unfold isGlobal in Hg1. rewrite Hg1. reflexivity.
  - (* container *)
    intros _. revert Hres. unfold_filters.
    destruct (Grants t PermAppReadEvents) as [| c cs] eqn:E; [discriminate |].
    intros Hres apps Happs Hsel Hget.
    rewrite result_bind in Hres. unfold call in Hres. cbn [result snd] in Hres.
    rewrite Happs in Hres.
    destruct apps as [| a0 rest]; [discriminate Hres |].
    rewrite result_bind in Hres.
    destruct (result (containerLoop env (a0 :: rest) (Some []))) as [vals |] eqn:Hloop;
      [| discriminate Hres].
    cbn [result ret snd] in Hres. injection Hres as <-. cbn [Values] in Hvals. subst vals.
    destruct (@containerLoop_values env (a0 :: rest) (Some []) vs X Hloop HX)
      as [[] | (a & units & u & Ha & Hunits & Hu & Hid)].
    cbv [check containerPermChecker containerPermChecker_check permission_Check perms].
    rewrite result_bind, HXe. unfold call. cbn [result snd].
    rewrite (Hget a units u Ha Hunits Hu Hid). cbn [result snd]. f_equal.
    unfold Check, ContextsForPermission. rewrite E. exact (Hsel a Ha).
  - (* node *)
    intros _ Hcoh. revert Hres. unfold_filters.
    destruct (Grants t PermPoolReadEvents) as [| c cs] eqn:E; [discriminate |].
    rewrite result_bind.
    destruct (result (nodeLoop env (c :: cs) None None)) as [vals |] eqn:Hloop;
      [| discriminate].
    cbn [result ret snd]. intros H. injection H as <-. cbn [Values] in Hvals. subst vals.
    destruct (@nodeLoop_values env (c :: cs) None None vs X (or_introl eq_refl) Hloop HX)
      as [[] | (ctx & ln & all & n & Hctx & Hty & Hln & Hall & Hn & Hpool & Haddr)].
    destruct (Hcoh ln all n Hln Hall Hn Haddr) as (n' & rest & Hone & Hsame).
    cbv [check nodePermChecker nodePermChecker_check permission_Check perms].
    rewrite Hln, result_bind, HXe. unfold call. simpl. rewrite Hone. simpl. f_equal.
    apply Check_In with (g := ctx).
    + unfold ContextsForPermission. now rewrite E.
    + left. rewrite Hsame, Hpool. destruct ctx as [ty v]. simpl in *. now subst.
  - (* iaas *)
    intros _. revert Hres. unfold_filters.
    destruct (Grants t PermMachineReadEvents) as [| c cs] eqn:E; [discriminate |].
    cbn [result ret snd]. intros H. injection H as <-. cbn [Values] in Hvals.
    cbv [check iaasPermChecker iaasPermChecker_check permission_Check perms call result snd].
    rewrite HXe. f_equal.
    apply Check_In with (g := Context CtxIaaS X); [| now left].
    unfold ContextsForPermission. rewrite E.
    apply (@contextLoop_values CtxIaaS (c :: cs) vs X); [discriminate | exact Hvals | exact HX].
  - (* role: its filter never lists a value *)
    intros _. revert Hres. unfold_filters.
    destruct (Grants t PermRoleReadEvents) as [| c cs] eqn:E; [discriminate |].
    cbn [result ret snd]. intros H. injection H as <-. cbn [Values] in Hvals.
    change (globalLoop (c :: cs) None = Some vs) in Hvals.
    destruct (existsb isGlobal (c :: cs)) eqn:Hg.
    + rewrite globalLoop_global in Hvals by exact Hg. discriminate Hvals.
    + rewrite globalLoop_no_global in Hvals by exact Hg. discriminate Hvals.
Qed.

Lemma listing_check_consistent_witness :
  result (check iaasPermChecker emptyEnv iaasEc2 (requestFor sampleId "")
            (sampleEvent TargetTypeIaas "ec2") readCheckKind) = Ok true
  /\ result (check teamPermChecker emptyEnv twoTeams (requestFor sampleId "")
               (sampleEvent TargetTypeTeam "beta") readCheckKind) = Ok true
  /\ result (check nodePermChecker envOneNode poolOnly (requestFor sampleId "")
               (sampleEvent TargetTypeNode "10.0.0.1") readCheckKind) = Ok true
  /\ result (check appPermChecker envListed alphaReader (requestFor sampleId "")
               (sampleEvent TargetTypeApp "myapp") readCheckKind) = Ok true
  /\ result (check serviceInstancePermChecker envListed alphaReader
               (requestFor sampleId "")
               (sampleEvent TargetTypeServiceInstance "mysql/prod") readCheckKind) = Ok true
  /\ result (check containerPermChecker envListed alphaReader (requestFor sampleId "")
               (sampleEvent TargetTypeContainer "unit1") readCheckKind) = Ok true
  /\ result (check userPermChecker emptyEnv alice (requestFor sampleId "")
               (sampleEvent TargetTypeUser "alice") readCheckKind) = Ok false.
Proof.
  split; [| split; [| split; [| split; [| split; [| split]]]]].
  - refine (proj1 (@listing_check_consistent emptyEnv iaasEc2 (requestFor sampleId "")
                     (sampleEvent TargetTypeIaas "ec2") TargetTypeIaas iaasPermChecker
                     {| FType := TargetTypeIaas; Values := Some ["ec2"] |} ["ec2"] "ec2"
                     _ eq_refl eq_refl (or_introl eq_refl) eq_refl) eq_refl).
    simpl. tauto.
  - refine (proj1 (proj2 (@listing_check_consistent emptyEnv twoTeams
                     (requestFor sampleId "")
                     (sampleEvent TargetTypeTeam "beta") TargetTypeTeam teamPermChecker
                     {| FType := TargetTypeTeam; Values := Some ["alpha"; "beta"] |}
                     ["alpha"; "beta"] "beta"
                     _ eq_refl eq_refl (or_intror (or_introl eq_refl)) eq_refl))
                  eq_refl {| Team_Name := "beta" |} eq_refl eq_refl).
    simpl. tauto.
  - refine (proj1 (proj2 (proj2 (proj2 (@listing_check_consistent envOneNode poolOnly
                     (requestFor sampleId "")
                     (sampleEvent TargetTypeNode "10.0.0.1") TargetTypeNode
                     nodePermChecker
                     {| FType := TargetTypeNode; Values := Some ["10.0.0.1"] |}
                     ["10.0.0.1"] "10.0.0.1"
                     _ eq_refl eq_refl (or_introl eq_refl) eq_refl))))
                  eq_refl _).
    + simpl. tauto.
    + intros ln all n Hln Hall Hn Haddr. injection Hln as <-.
      injection Hall as <-. destruct Hn as [<- | []].
      exists node1, []. split; reflexivity.
  - refine (proj1 (proj2 (proj2 (proj2 (proj2
              (@listing_check_consistent envListed alphaReader (requestFor sampleId "")
                 (sampleEvent TargetTypeApp "myapp") TargetTypeApp appPermChecker
                 {| FType := TargetTypeApp; Values := Some ["myapp"] |}
                 ["myapp"] "myapp"
                 _ eq_refl eq_refl (or_introl eq_refl) eq_refl)))))
              eq_refl [myapp] eq_refl _ _).
    + simpl. tauto.
    + intros a [<- | []]. reflexivity.
    + intros a [<- | []] _. reflexivity.
  - refine (proj1 (proj2 (proj2 (proj2 (proj2 (proj2 (proj2
              (@listing_check_consistent envListed alphaReader (requestFor sampleId "")
                 (sampleEvent TargetTypeServiceInstance "mysql/prod")
                 TargetTypeServiceInstance serviceInstancePermChecker
                 {| FType := TargetTypeServiceInstance; Values := Some ["mysql/prod"] |}
                 ["mysql/prod"] "mysql/prod"
                 _ eq_refl eq_refl (or_introl eq_refl) eq_refl)))))))
              eq_refl [mysqlProd] eq_refl _ _ _).
    + simpl. tauto.
    + intros si [<- | []]. reflexivity.
    + intros si [<- | []]. simpl. intros [H | [H | [H | [H | [H | []]]]]]; discriminate H.
    + intros si [<- | []]. reflexivity.
  - refine (proj1 (proj2 (proj2 (proj2 (proj2 (proj2 (proj2 (proj2
              (@listing_check_consistent envListed alphaReader (requestFor sampleId "")
                 (sampleEvent TargetTypeContainer "unit1") TargetTypeContainer
                 containerPermChecker
                 {| FType := TargetTypeContainer; Values := Some ["unit1"] |}
                 ["unit1"] "unit1"
                 _ eq_refl eq_refl (or_introl eq_refl) eq_refl))))))))
              eq_refl [myapp] eq_refl _ _).
    + simpl. tauto.
    + intros a [<- | []]. reflexivity.
    + intros a units u [<- | []] _ _ _. reflexivity.
  - refine (proj2 (proj2 (proj2 (proj2 (proj2 (proj2 (proj2 (proj2 (proj2
              (@listing_check_consistent emptyEnv alice (requestFor sampleId "")
                 (sampleEvent TargetTypeUser "alice") TargetTypeUser userPermChecker
                 {| FType := TargetTypeUser; Values := Some ["alice"] |}
                 ["alice"] "alice"
                 _ eq_refl eq_refl (or_introl eq_refl) eq_refl)))))))))
              eq_refl).
    simpl. tauto.
Defined.

(** Against C1 as stated.  The entry of the User kind lists the actor's
    own name, and the Read check of the User kind asks for a Global context: an actor without
    contexts is listed and not allowed. *)
Lemma user_listing_not_checked :
  In (TargetTypeUser, userPermChecker) evtPermMap
  /\ result (filter userPermChecker emptyEnv alice) =
       Ok (Some {| FType := TargetTypeUser; Values := Some ["alice"] |})
  /\ In "alice" ["alice"]
  /\ ETarget (sampleEvent TargetTypeUser "alice") =
       {| Type_ := TargetTypeUser; TValue := "alice" |}
  /\ result (check userPermChecker emptyEnv alice (requestFor sampleId "")
               (sampleEvent TargetTypeUser "alice") readCheckKind) = Ok false
  /\ result (check userPermChecker emptyEnv alice (requestFor sampleId "")
               (sampleEvent TargetTypeUser "alice") readCheckKind) <> Ok true.
Proof.
  repeat split; try reflexivity.
  - simpl. tauto.
  - now left.
  - discriminate.
Qed.

(** ** The query of the event list *)

Lemma containerLoop_calls env apps vals :
  forallb isFilterCall (trace (containerLoop env apps vals)) = true.
Proof.
  revert vals. induction apps as [| a rest IH]; intros vals; [reflexivity |].
  cbn [containerLoop]. rewrite trace_bind. unfold call. simpl.
  destruct (app_Units env a); simpl; [apply IH | reflexivity].
Qed.

Lemma nodeLoop_calls env contexts vals nodes :
  forallb isFilterCall (trace (nodeLoop env contexts vals nodes)) = true.
Proof.
  revert vals nodes.
  induction contexts as [| c cs IH]; intros vals nodes; [reflexivity |].
  cbn [nodeLoop].
  destruct (contextType_eqb (CtxType c) CtxGlobal); [reflexivity |].
  destruct (contextType_eqb (CtxType c) CtxPool); [| apply IH].
  rewrite trace_bind.
  destruct (is_nil nodes); [| apply IH].
  destruct (NodeProvisioner env) as [ln |]; [| apply IH].
  unfold call. simpl. destruct (ln None); simpl; [apply IH | reflexivity].
Qed.

Lemma filter_calls (env : Env) (t : Token) (k : TargetType) (checker : evtPermChecker) :
  In (k, checker) evtPermMap ->
  forallb isFilterCall (trace (filter checker env t)) = true.
Proof.
  intros Hin. each_checker Hin; unfold_filters.
  - destruct (Grants t PermAppReadEvents); [reflexivity |].
    rewrite trace_bind. unfold call. simpl.
    destruct (app_List env _) as [[| a apps] | err]; reflexivity.
  - destruct (Grants t PermTeamReadEvents); reflexivity.
  - destruct (Grants t PermServiceReadEvents); [reflexivity |].
    rewrite trace_bind. unfold call. simpl.
    destruct (provisionReadableServices env t _) as [[| a rest] | err]; reflexivity.
  - destruct (Grants t PermServiceInstanceReadEvents); [reflexivity |].
    rewrite trace_bind. unfold call. simpl.
    destruct (readableInstances env t _) as [[| a rest] | err]; reflexivity.
  - destruct (Grants t PermPoolReadEvents); reflexivity.
  - destruct (Grants t PermUserReadEvents); reflexivity.
  - destruct (Grants t PermAppReadEvents); [reflexivity |].
    rewrite trace_bind. unfold call. simpl.
    destruct (app_List env _) as [[| a apps] | err]; try reflexivity.
    rewrite trace_bind.
    generalize (containerLoop_calls env (a :: apps) (Some [])).
    destruct (result (containerLoop env (a :: apps) (Some []))); simpl;
      [rewrite app_nil_r |]; auto.
  - destruct (Grants t PermPoolReadEvents) as [| c cs]; [reflexivity |].
    rewrite trace_bind.
    generalize (nodeLoop_calls env (c :: cs) None None).
    destruct (result (nodeLoop env (c :: cs) None None)); simpl;
      [rewrite app_nil_r |]; auto.
  - destruct (Grants t PermMachineReadEvents); reflexivity.
  - destruct (Grants t PermRoleReadEvents); reflexivity.
Qed.

Lemma filterLoop_calls (env : Env) (t : Token) entries acc :
  incl entries evtPermMap ->
  forallb isFilterCall (fst (fst (filterLoop env t entries acc))) = true.
Proof.
  revert acc. induction entries as [| [k c] rest IH]; intros acc Hincl;
    [reflexivity |].
  cbn [filterLoop].
  assert (Hc : forallb isFilterCall (trace (filter c env t)) = true).
  { apply (@filter_calls env t k). apply Hincl. now left. }
  assert (Hrest : incl rest evtPermMap).
  { intros x Hx. apply Hincl. now right. }
  destruct (filter c env t) as [tr [allowed | err]]; cbn [trace fst] in Hc;
    [| exact Hc].
  specialize (IH (match allowed with
                  | Some a => sappend acc a
                  | None => acc
                  end) Hrest).
  destruct (filterLoop env t rest _) as [[tr' written] err].
  cbn [fst] in *. now rewrite forallb_app, Hc, IH.
Qed.

(** The filter that [eventList] hands to [event.List] carries the allowed
    targets computed from the token, whatever the request decodes to. *)
Lemma eventList_query (env : Env) (t : Token) (r : Request)
    (entries : list (TargetType * evtPermChecker)) (flt : Filter) :
  Permutation evtPermMap entries ->
  In (CallEventList flt) (trace (eventList entries env t r)) ->
  AllowedTargets flt = Some (collected env t entries).
Proof.
  intros Hperm. unfold eventList.
  destruct (DecodeValues env (Form r)) as [f0 | err]; [| intros []].
  rewrite trace_bind. unfold run. cbn [trace result fst snd].
  assert (Hcalls : forallb isFilterCall
                     (calls (filterForPerms entries env t (Some (PruneUserValues env f0))))
                   = true).
  { rewrite filterForPerms_calls. apply filterLoop_calls.
    intros x Hx. exact (Permutation_in x (Permutation_sym Hperm) Hx). }
  assert (Hnot : ~ In (CallEventList flt)
                   (calls (filterForPerms entries env t (Some (PruneUserValues env f0))))).
  { intros Hin. rewrite forallb_forall in Hcalls.
    specialize (Hcalls _ Hin). discriminate Hcalls. }
  rewrite filterForPerms_returned.
  destruct (firstError env t entries); [intros Hin; contradiction |].
  rewrite trace_bind. unfold call. cbn [trace result fst snd].
  intros Hin. apply in_app_or in Hin as [Hin | Hin]; [contradiction |].
  destruct (event_List env _) as [[| ev evs] | err'];
    simpl in Hin; destruct Hin as [Hin | []]; injection Hin as <-; reflexivity.
Qed.

(** * Further properties of the checkers and handlers *)

(** ** The shape of a check *)

Ltac unfold_checks :=
  cbv [check appPermChecker teamPermChecker servicePermChecker
       serviceInstancePermChecker poolPermChecker userPermChecker
       containerPermChecker nodePermChecker iaasPermChecker rolePermChecker
       appPermChecker_check teamPermChecker_check servicePermChecker_check
       serviceInstancePermChecker_check poolPermChecker_check userPermChecker_check
       containerPermChecker_check nodePermChecker_check iaasPermChecker_check
       rolePermChecker_check permission_Check call bind ret trace result fst snd].

Lemma check_cases (env : Env) (t : Token) (r : Request) (e : Event)
    (kind : checkKind) (k : TargetType) (checker : evtPermChecker) :
  In (k, checker) evtPermMap ->
  match result (check checker env t r e kind) with
  | Err err =>
      exists lookup,
        trace (check checker env t r e kind) = [lookup]
        /\ isStoreLookup lookup = true
  | Ok b =>
      (trace (check checker env t r e kind) = [] /\ b = false)
      \/ exists pre s ctxs,
           trace (check checker env t r e kind) = pre ++ [CallPermissionCheck s ctxs]
           /\ forallb isStoreLookup pre = true
           /\ (List.length pre <= 1)%nat
           /\ checkScheme k kind = Some s
           /\ b = Check t s ctxs
  end.
Proof.
  intros Hin. each_checker Hin; unfold_checks.
  - destruct (getAppFromContext env _); [| eexists; split; reflexivity].
    right. eexists [_], _, _. repeat split. simpl. lia.
  - destruct (auth_GetTeam env _); [| eexists; split; reflexivity].
    right. eexists [_], _, _. repeat split. simpl. lia.
  - destruct (getService env _); [| eexists; split; reflexivity].
    right. eexists [_], _, _. repeat split. simpl. lia.
  - destruct (SplitN2 _) as [| v0 [| v1 [| ? ?]]]; try (left; split; reflexivity).
    destruct (getServiceInstanceOrError env _ _); [| eexists; split; reflexivity].
    right. eexists [_], _, _. repeat split. simpl. lia.
  - destruct (provision_GetPoolByName env _); [| eexists; split; reflexivity].
    right. eexists [_], _, _. repeat split. simpl. lia.
  - right. exists [], (perms PermUserReadEvents PermUserUpdateEvents kind),
      [Context CtxGlobal ""]. repeat split. simpl. lia.
  - destruct (GetAppFromUnitID env _); [| eexists; split; reflexivity].
    right. eexists [_], _, _. repeat split. simpl. lia.
  - destruct (NodeProvisioner env) as [ln |]; [| left; split; reflexivity].
    destruct (ln _); [| eexists; split; reflexivity].
    right. eexists [_], _, _. repeat split. simpl. lia.
  - right. exists [], (perms PermMachineReadEvents PermMachineUpdateEvents kind),
      [Context CtxIaaS (TValue (ETarget e))]. repeat split. simpl. lia.
  - right. exists [], (perms PermRoleReadEvents PermRoleUpdateEvents kind),
      [Context CtxGlobal ""]. repeat split. simpl. lia.
Qed.

(** X1.  Every check of the registry either fails after exactly one call,
    a lookup in the owning store, without asking [permission.Check]; or
    denies without any call; or makes at most one store lookup and then
    asks [permission.Check] once, last, with the scheme that the kind has
    for the mode, and returns its answer. *)
Theorem check_shape (env : Env) (t : Token) (r : Request) (e : Event)
    (kind : checkKind) (k : TargetType) (checker : evtPermChecker) :
  In (k, checker) evtPermMap ->
  match result (check checker env t r e kind) with
  | Err err =>
      exists lookup,
        trace (check checker env t r e kind) = [lookup]
        /\ isStoreLookup lookup = true
  | Ok b =>
      (trace (check checker env t r e kind) = [] /\ b = false)
      \/ exists pre s ctxs,
           trace (check checker env t r e kind) = pre ++ [CallPermissionCheck s ctxs]
           /\ forallb isStoreLookup pre = true
           /\ (List.length pre <= 1)%nat
           /\ checkScheme k kind = Some s
           /\ b = Check t s ctxs
  end.
Proof. apply check_cases. Qed.

Lemma check_shape_witness :
  trace (check poolPermChecker emptyEnv poolOnly (requestFor sampleId "")
           (sampleEvent TargetTypePool "pool1") updateCheckKind) =
    [CallGetPoolByName "pool1";
     CallPermissionCheck PermPoolUpdateEvents [Context CtxPool "pool1"]]
  /\ exists lookup,
       trace (check appPermChecker emptyEnv poolOnly (requestFor sampleId "")
                (sampleEvent TargetTypeApp "myapp") readCheckKind) = [lookup]
       /\ isStoreLookup lookup = true.
Proof.
  split; [reflexivity |].
  refine (@check_shape emptyEnv poolOnly (requestFor sampleId "")
            (sampleEvent TargetTypeApp "myapp") readCheckKind TargetTypeApp
            appPermChecker _).
  simpl. tauto.
Defined.

(** X2.  A check of the registry allows only when [permission.Check] was
    asked and answered true for the scheme of the kind and mode: no check
    returns true on its own. *)
Theorem check_allows_by_permission (env : Env) (t : Token) (r : Request) (e : Event)
    (kind : checkKind) (k : TargetType) (checker : evtPermChecker) :
  In (k, checker) evtPermMap ->
  result (check checker env t r e kind) = Ok true ->
  exists s ctxs,
    In (CallPermissionCheck s ctxs) (trace (check checker env t r e kind))
    /\ checkScheme k kind = Some s
    /\ Check t s ctxs = true.
Proof.
  intros Hin Hres. generalize (check_cases env t r e kind Hin). rewrite Hres.
  intros [[_ H] | (pre & s & ctxs & Htr & _ & _ & Hs & Hb)]; [discriminate H |].
  exists s, ctxs. rewrite Htr. split; [| auto].
  apply in_or_app. right. now left.
Qed.

Lemma check_allows_by_permission_witness :
  exists s ctxs,
    In (CallPermissionCheck s ctxs)
       (trace (check teamPermChecker emptyEnv twoTeams (requestFor sampleId "")
                 (sampleEvent TargetTypeTeam "beta") readCheckKind))
    /\ checkScheme TargetTypeTeam readCheckKind = Some s
    /\ Check twoTeams s ctxs = true.
Proof.
  refine (@check_allows_by_permission emptyEnv twoTeams (requestFor sampleId "")
            (sampleEvent TargetTypeTeam "beta") readCheckKind TargetTypeTeam
            teamPermChecker _ eq_refl).
  simpl. tauto.
Defined.

(** ** More on the handlers *)

(** X3.  Cancelling, the failures besides the ordered steps: a uuid that is
    not an ObjectId gives bad-request without any call; an error of the
    Update check is returned as it is and [TryCancel] is not called; an
    error of [TryCancel] other than "not cancelable" is returned as it is. *)
Theorem eventCancel_failures (env : Env) (t : Token) (r : Request) :
  (IsObjectIdHex (uuid r) = false ->
     eventCancel env t r =
       fail (HTTP StatusBadRequest ("uuid parameter is not ObjectId: " ++ uuid r)))
  /\ (forall e checker err,
        IsObjectIdHex (uuid r) = true ->
        event_GetByID env (uuid r) = Ok e ->
        reason r <> "" ->
        evtPermMap_get (Type_ (ETarget e)) = Some checker ->
        result (check checker env t r e updateCheckKind) = Err err ->
        result (eventCancel env t r) = Err err
        /\ existsb isTryCancel (trace (eventCancel env t r)) = false)
  /\ (forall e checker err,
        IsObjectIdHex (uuid r) = true ->
        event_GetByID env (uuid r) = Ok e ->
        reason r <> "" ->
        evtPermMap_get (Type_ (ETarget e)) = Some checker ->
        result (check checker env t r e updateCheckKind) = Ok true ->
        TryCancel env e (reason r) (GetUserName t) = Some err ->
        err <> ErrNotCancelable ->
        result (eventCancel env t r) = Err err).
Proof.
  unfold eventCancel. split; [| split].
  - intros ->. reflexivity.
  - intros e checker err -> Hget Hr Hc Herr. apply String_eqb_empty in Hr.
    simpl negb. cbv iota. unfold call at 1, mapErr at 1. rewrite Hget.
    rewrite result_bind, trace_bind. simpl result. simpl trace. rewrite Hr, Hc.
    rewrite result_bind, trace_bind, Herr. split; [reflexivity |].
    simpl. apply (check_never_cancels env t r e updateCheckKind _ Hc).
  - intros e checker err -> Hget Hr Hc Htrue Hcancel Hnot.
    apply String_eqb_empty in Hr.
    simpl negb. cbv iota. unfold call at 1, mapErr at 1. rewrite Hget.
    rewrite result_bind. simpl result. rewrite Hr, Hc.
    rewrite result_bind, Htrue. simpl negb. cbv iota.
    rewrite result_bind. unfold call, mapErr. rewrite Hcancel. simpl.
    destruct err; try reflexivity. congruence.
Qed.

Lemma eventCancel_failures_witness :
  eventCancel emptyEnv alice (requestFor "not-an-id" "stop") =
    fail (HTTP 400 "uuid parameter is not ObjectId: not-an-id")
  /\ result (eventCancel (envUserEvent (Some (ErrOther "database is down")))
               globalForUsers (requestFor sampleId "stop")) =
       Err (ErrOther "database is down").
Proof.
  split.
  - exact (proj1 (eventCancel_failures emptyEnv alice (requestFor "not-an-id" "stop"))
                 eq_refl).
  - refine (proj2 (proj2 (eventCancel_failures
                            (envUserEvent (Some (ErrOther "database is down")))
                            globalForUsers (requestFor sampleId "stop")))
                  (sampleEvent TargetTypeUser "bob") userPermChecker
                  (ErrOther "database is down") eq_refl eq_refl _ eq_refl eq_refl
                  eq_refl _); discriminate.
Defined.

(** X4.  An event whose target kind is none of the ten kinds of the
    registry is denied to every actor: fetching it, and cancelling it with
    a reason, return the unauthorized error after the lookup of the event
    alone, without any check. *)
Theorem unregistered_kind_denied (env : Env) (t : Token) (r : Request) (e : Event)
    (name : string) :
  IsObjectIdHex (uuid r) = true ->
  event_GetByID env (uuid r) = Ok e ->
  Type_ (ETarget e) = TargetTypeOther name ->
  eventInfo env t r = ([CallGetByID (uuid r)], Err ErrUnauthorized)
  /\ (reason r <> "" ->
      eventCancel env t r = ([CallGetByID (uuid r)], Err ErrUnauthorized)).
Proof.
  intros Hid Hget Hk. unfold eventInfo, eventCancel. rewrite Hid.
  unfold call, mapErr. rewrite Hget. simpl. rewrite Hk. split; [reflexivity |].
  intros Hr. apply String_eqb_empty in Hr. now rewrite Hr.
Qed.

(** X5.  Fetching an event only reads: every call of [eventInfo] is the
    lookup of the event or a call of a check (a store lookup or
    [permission.Check]); it never calls [TryCancel]. *)
Theorem eventInfo_read_only (env : Env) (t : Token) (r : Request) :
  (forall c, In c (trace (eventInfo env t r)) ->
             c = CallGetByID (uuid r) \/ isCheckCall c = true)
  /\ existsb isTryCancel (trace (eventInfo env t r)) = false.
Proof.
  assert (H : forall c, In c (trace (eventInfo env t r)) ->
                        c = CallGetByID (uuid r) \/ isCheckCall c = true).
  { unfold eventInfo. destruct (IsObjectIdHex (uuid r)); [| intros c []].
    simpl negb. cbv iota. rewrite trace_bind. unfold call, mapErr.
    destruct (event_GetByID env (uuid r)) as [e | err]; simpl;
      [| intros c [<- | []]; now left].
    destruct (evtPermMap_get (Type_ (ETarget e))) as [checker |] eqn:Hc;
      [| intros c [<- | []]; now left].
    intros c [<- | Hin]; [now left |]. right.
    rewrite trace_bind in Hin.
    assert (Hcalls := check_calls env t r e readCheckKind _ Hc).
    rewrite forallb_forall in Hcalls. apply Hcalls.
    destruct (result (check checker env t r e readCheckKind)) as [[|] |];
      simpl in Hin; rewrite ?app_nil_r in Hin; exact Hin. }
  split; [exact H |].
  destruct (existsb isTryCancel (trace (eventInfo env t r))) eqn:E; [| reflexivity].
  apply existsb_exists in E as (c & Hin & Hc).
  destruct (H c Hin) as [-> | Hcheck]; [discriminate Hc |].
  destruct c; discriminate.
Qed.

Lemma eventInfo_read_only_witness :
  CallPermissionCheck PermUserReadEvents [Context CtxGlobal ""] =
    CallGetByID sampleId
  \/ isCheckCall (CallPermissionCheck PermUserReadEvents [Context CtxGlobal ""]) = true.
Proof.
  refine (proj1 (eventInfo_read_only (envUserEvent None) globalForUsers
                   (requestFor sampleId "")) _ _).
  simpl. tauto.
Defined.

Lemma unregistered_kind_denied_witness :
  eventInfo envVolumeEvent globalForUsers (requestFor sampleId "") =
    ([CallGetByID sampleId], Err ErrUnauthorized)
  /\ eventCancel envVolumeEvent globalForUsers (requestFor sampleId "stop") =
       ([CallGetByID sampleId], Err ErrUnauthorized).
Proof.
  split.
  - exact (proj1 (@unregistered_kind_denied envVolumeEvent globalForUsers
                    (requestFor sampleId "") _ "volume" eq_refl eq_refl eq_refl)).
  - refine (proj2 (@unregistered_kind_denied envVolumeEvent globalForUsers
                     (requestFor sampleId "stop") _ "volume" eq_refl eq_refl eq_refl) _).
    discriminate.
Defined.

Lemma filterForPerms_lists_only (env : Env) (t : Token) entries f :
  Permutation evtPermMap entries ->
  forallb isFilterCall (calls (filterForPerms entries env t f)) = true.
Proof.
  intros Hperm. rewrite filterForPerms_calls. apply filterLoop_calls.
  intros x Hx. exact (Permutation_in x (Permutation_sym Hperm) Hx).
Qed.

(** X6.  Listing events.  A form that does not decode gives bad-request
    without any call.  When building the permission filter fails, that
    error is returned and [event.List] is never called.  Otherwise
    [event.List] is called exactly once, last, with the filter that
    [filterForPerms] returned for the pruned request filter; its error is
    returned as it is, no event gives status 204 without body, and events
    are written as JSON with status 200. *)
Theorem eventList_outcomes (env : Env) (t : Token) (r : Request)
    (entries : list (TargetType * evtPermChecker)) :
  Permutation evtPermMap entries ->
  (forall err,
      DecodeValues env (Form r) = Err err ->
      eventList entries env t r =
        fail (HTTP StatusBadRequest ("unable to parse event filters: " ++ Error env err)))
  /\ (forall f0 err,
        DecodeValues env (Form r) = Ok f0 ->
        returned (filterForPerms entries env t (Some (PruneUserValues env f0))) = Err err ->
        result (eventList entries env t r) = Err err
        /\ existsb isEventList (trace (eventList entries env t r)) = false)
  /\ (forall f0 flt,
        DecodeValues env (Form r) = Ok f0 ->
        returned (filterForPerms entries env t (Some (PruneUserValues env f0))) = Ok flt ->
        trace (eventList entries env t r) =
          calls (filterForPerms entries env t (Some (PruneUserValues env f0)))
            ++ [CallEventList flt]
        /\ existsb isEventList
             (calls (filterForPerms entries env t (Some (PruneUserValues env f0)))) = false
        /\ result (eventList entries env t r) =
             match event_List env flt with
             | Err err => Err err
             | Ok [] => Ok noContent
             | Ok events => Ok (jsonResponse (JSONEvents events))
             end).
Proof.
  intros Hperm.
  assert (Hno : forall f, existsb isEventList (calls (filterForPerms entries env t f)) = false).
  { intros f. generalize (filterForPerms_lists_only env t f Hperm).
    induction (calls (filterForPerms entries env t f)) as [| c tr IH]; simpl;
      [reflexivity |].
    intros H. apply andb_true_iff in H as [Hc Htr]. rewrite (IH Htr).
    destruct c; try reflexivity; discriminate Hc. }
  unfold eventList. split; [| split].
  - intros err ->. reflexivity.
  - intros f0 err -> Herr. rewrite result_bind, trace_bind. unfold run.
    cbn [result trace fst snd]. rewrite Herr. split; [reflexivity | apply Hno].
  - intros f0 flt -> Hok. rewrite result_bind, trace_bind. unfold run.
    cbn [result trace fst snd]. rewrite Hok.
    rewrite result_bind, trace_bind. unfold call. cbn [result trace fst snd].
    split; [| split; [apply Hno |]].
    + destruct (event_List env flt) as [[| ev evs] | err]; simpl;
        rewrite ?app_nil_r; reflexivity.
    + destruct (event_List env flt) as [[| ev evs] | err]; reflexivity.
Qed.

Lemma eventList_outcomes_witness :
  result (eventList (rev evtPermMap) failingApps appsAndTeams (requestFor "" "")) =
    Err (ErrOther "database is down")
  /\ result (eventList (rev evtPermMap) emptyEnv twoTeams (requestFor "" "")) =
       Ok noContent.
Proof.
  split.
  - exact (proj1 (proj1 (proj2 (@eventList_outcomes failingApps appsAndTeams
                                  (requestFor "" "") (rev evtPermMap)
                                  (Permutation_rev _)))
                        _ (ErrOther "database is down") eq_refl eq_refl)).
  - exact (proj2 (proj2 (proj2 (proj2 (@eventList_outcomes emptyEnv twoTeams
                                  (requestFor "" "") (rev evtPermMap)
                                  (Permutation_rev _)))
                        _ _ eq_refl eq_refl))).
Defined.

(** ** More on the combined filter *)

Lemma filter_FType_key (env : Env) (t : Token) (k : TargetType)
    (checker : evtPermChecker) (tf : TargetFilter) :
  In (k, checker) evtPermMap ->
  result (filter checker env t) = Ok (Some tf) ->
  FType tf = k.
Proof.
  intros Hin. each_checker Hin; unfold_filters.
  - destruct (Grants t PermAppReadEvents); [discriminate |].
    rewrite result_bind. unfold call. simpl.
    destruct (app_List env _) as [[| a apps] | err]; try discriminate.
    intros H. injection H as <-. reflexivity.
  - destruct (Grants t PermTeamReadEvents); [discriminate |].
    intros H. injection H as <-. reflexivity.
  - destruct (Grants t PermServiceReadEvents); [discriminate |].
    rewrite result_bind. unfold call. simpl.
    destruct (provisionReadableServices env t _) as [[| a rest] | err]; try discriminate.
    intros H. injection H as <-. reflexivity.
  - destruct (Grants t PermServiceInstanceReadEvents); [discriminate |].
    rewrite result_bind. unfold call. simpl.
    destruct (readableInstances env t _) as [[| a rest] | err]; try discriminate.
    intros H. injection H as <-. reflexivity.
  - destruct (Grants t PermPoolReadEvents); [discriminate |].
    intros H. injection H as <-. reflexivity.
  - destruct (Grants t PermUserReadEvents); intros H; injection H as <-; reflexivity.
  - destruct (Grants t PermAppReadEvents); [discriminate |].
    rewrite result_bind. unfold call. simpl.
    destruct (app_List env _) as [[| a apps] | err]; try discriminate.
    rewrite result_bind.
    destruct (result (containerLoop env (a :: apps) (Some []))); [| discriminate].
    intros H. injection H as <-. reflexivity.
  - destruct (Grants t PermPoolReadEvents) as [| c cs]; [discriminate |].
    rewrite result_bind.
    destruct (result (nodeLoop env (c :: cs) None None)); [| discriminate].
    intros H. injection H as <-. reflexivity.
  - destruct (Grants t PermMachineReadEvents); [discriminate |].
    intros H. injection H as <-. reflexivity.
  - destruct (Grants t PermRoleReadEvents); [discriminate |].
    intros H. injection H as <-. reflexivity.
Qed.

Lemma evtPermMap_keys_NoDup : NoDup (map fst evtPermMap).
Proof.
  simpl. repeat constructor; simpl; intuition discriminate.
Qed.

Lemma collected_FType_keys (env : Env) (t : Token) entries x :
  incl entries evtPermMap ->
  In x (map FType (collected env t entries)) -> In x (map fst entries).
Proof.
  intros Hincl Hin. apply in_map_iff in Hin as (tf & <- & Htf).
  apply collected_In in Htf as ([k c] & Hkc & Hres). simpl in Hres.
  rewrite (filter_FType_key env t (Hincl _ Hkc) Hres).
  apply in_map_iff. exists (k, c). auto.
Qed.

Lemma collected_FType_NoDup (env : Env) (t : Token) entries :
  incl entries evtPermMap ->
  NoDup (map fst entries) ->
  NoDup (map FType (collected env t entries)).
Proof.
  induction entries as [| [k c] rest IH]; intros Hincl Hnd; [constructor |].
  assert (Hrest : incl rest evtPermMap) by (intros x Hx; apply Hincl; now right).
  inversion Hnd as [| ? ? Hnotin Hnd']; subst.
  change (collected env t ((k, c) :: rest))
    with ((match result (filter c env t) with
           | Ok (Some a) => [a]
           | _ => []
           end) ++ collected env t rest).
  destruct (result (filter c env t)) as [[a |] | err] eqn:E; simpl; auto.
  constructor; [| auto].
  rewrite (filter_FType_key env t (Hincl _ (or_introl eq_refl)) E).
  intros Hin. apply Hnotin. exact (@collected_FType_keys env t rest k Hrest Hin).
Qed.

(** X7.  The filter that [filterForPerms] returns, for every order of the
    run: its allowed targets are a non-nil slice with at most one entry per
    target kind, all of kinds of the registry, among them always an entry
    for the User kind; the other fields are those of the filter given by
    the caller. *)
Theorem combined_filter_entries (env : Env) (t : Token)
    (entries : list (TargetType * evtPermChecker)) (f : option Filter) (flt : Filter) :
  Permutation evtPermMap entries ->
  returned (filterForPerms entries env t f) = Ok flt ->
  exists ats,
    AllowedTargets flt = Some ats
    /\ NoDup (map FType ats)
    /\ (forall tf, In tf ats -> exists c, In (FType tf, c) evtPermMap)
    /\ (exists vs, In {| FType := TargetTypeUser; Values := vs |} ats)
    /\ UserFields flt = match f with
                        | Some f' => UserFields f'
                        | None => []
                        end.
Proof.
  intros Hperm. rewrite filterForPerms_returned.
  destruct (firstError env t entries); [discriminate |].
  intros H. injection H as <-. cbn [AllowedTargets UserFields].
  assert (Hincl : incl entries evtPermMap).
  { intros x Hx. exact (Permutation_in x (Permutation_sym Hperm) Hx). }
  exists (collected env t entries). split; [reflexivity |].
  split; [| split; [| split; [| reflexivity]]].
  - apply collected_FType_NoDup; [exact Hincl |].
    apply (Permutation_NoDup (Permutation_map fst Hperm)), evtPermMap_keys_NoDup.
  - intros tf Htf. apply collected_In in Htf as ([k c] & Hkc & Hres).
    exists c. cbn [snd] in Hres.
    rewrite (filter_FType_key env t (Hincl _ Hkc) Hres). exact (Hincl _ Hkc).
  - assert (Huser : In (TargetTypeUser, userPermChecker) entries).
    { apply (Permutation_in _ Hperm). simpl. tauto. }
    destruct (result (filter userPermChecker env t)) as [[tf |] | err] eqn:E.
    + exists (Values tf). apply collected_In. exists (TargetTypeUser, userPermChecker).
      split; [exact Huser |]. cbn [snd]. rewrite E.
      generalize (@filter_FType_key env t TargetTypeUser userPermChecker _
                    (Hincl _ Huser) E).
      destruct tf as [ty vs]. cbn [FType Values]. now intros ->.
    + revert E. unfold_filters.
      destruct (Grants t PermUserReadEvents); discriminate.
    + revert E. unfold_filters.
      destruct (Grants t PermUserReadEvents); discriminate.
Qed.

Lemma combined_filter_entries_witness :
  exists flt ats,
    returned (filterForPerms (rev evtPermMap) emptyEnv twoTeams (Some forgedFilter)) = Ok flt
    /\ AllowedTargets flt = Some ats
    /\ NoDup (map FType ats).
Proof.
  eexists.
  destruct (@combined_filter_entries emptyEnv twoTeams (rev evtPermMap)
              (Some forgedFilter) _ (Permutation_rev _) eq_refl)
    as (ats & H1 & H2 & _).
  exists ats. split; [reflexivity |]. split; [exact H1 | exact H2].
Defined.

(** ** The filters that list the owning stores *)

Lemma containerLoop_ok env apps l :
  (forall a, In a apps -> exists units, app_Units env a = Ok units) ->
  containerLoop env apps (Some l) =
    (map CallUnits apps, Ok (Some (l ++ flat_map (unitIDs env) apps))).
Proof.
  revert l. induction apps as [| a rest IH]; intros l Hok.
  - simpl. now rewrite app_nil_r.
  - destruct (Hok a (or_introl eq_refl)) as [units Hunits].
    cbn [containerLoop map flat_map]. unfold call, bind, unitIDs at 1. rewrite Hunits.
    rewrite appendAll_Some, IH by (intros b Hb; apply Hok; now right).
    simpl. now rewrite <- app_assoc.
Qed.

Lemma containerLoop_fail env pre a post l err :
  (forall b, In b pre -> exists units, app_Units env b = Ok units) ->
  app_Units env a = Err err ->
  containerLoop env (pre ++ a :: post) (Some l) = (map CallUnits (pre ++ [a]), Err err).
Proof.
  revert l. induction pre as [| b pre IH]; intros l Hok Herr.
  - simpl. unfold call, bind. rewrite Herr. reflexivity.
  - destruct (Hok b (or_introl eq_refl)) as [units Hunits].
    cbn [containerLoop map app]. unfold call, bind. rewrite Hunits.
    rewrite appendAll_Some, IH by (auto; intros c Hc; apply Hok; now right).
    reflexivity.
Qed.

(** X8.  The container filter, for an actor with contexts and a store that
    lists applications: when the units of every application can be listed,
    the calls are the listing of the applications for exactly the actor's
    contexts and then the units of each application in order, and the
    scope is restricted to the unit identifiers of all applications in
    order, a non-nil list even when there is no unit; when the units of an
    application cannot be listed, the applications after it are not asked
    and that error is returned instead of a filter. *)
Theorem container_filter_units (env : Env) (t : Token) (apps : list App) :
  ContextsForPermission t PermAppReadEvents <> [] ->
  app_List env (ContextsForPermission t PermAppReadEvents) = Ok apps ->
  apps <> [] ->
  ((forall a, In a apps -> exists units, app_Units env a = Ok units) ->
     filter containerPermChecker env t =
       (CallAppList (ContextsForPermission t PermAppReadEvents) :: map CallUnits apps,
        Ok (Some {| FType := TargetTypeContainer;
                    Values := Some (flat_map (unitIDs env) apps) |})))
  /\ (forall pre a post err,
        apps = pre ++ a :: post ->
        (forall b, In b pre -> exists units, app_Units env b = Ok units) ->
        app_Units env a = Err err ->
        filter containerPermChecker env t =
          (CallAppList (ContextsForPermission t PermAppReadEvents)
             :: map CallUnits (pre ++ [a]),
           Err err)).
Proof.
  intros Hctx Hlist Hne. unfold ContextsForPermission in *. split.
  - intros Hok. unfold_filters.
    destruct (Grants t PermAppReadEvents) as [| c cs] eqn:E; [congruence |].
    unfold call, bind at 1. rewrite Hlist.
    destruct apps as [| a rest]; [congruence |].
    rewrite (containerLoop_ok env (a :: rest) [] Hok).
    unfold bind, ret. cbn [app]. now rewrite app_nil_r.
  - intros pre a post err Happs Hok Herr. unfold_filters.
    destruct (Grants t PermAppReadEvents) as [| c cs] eqn:E; [congruence |].
    unfold call, bind at 1. rewrite Hlist.
    destruct apps as [| a0 rest]; [congruence |].
    rewrite Happs, (containerLoop_fail env pre a post [] Hok Herr).
    reflexivity.
Qed.

Lemma container_filter_units_witness :
  filter containerPermChecker envOneApp globalForApps =
    ([CallAppList [Context CtxGlobal ""]; CallUnits myapp],
     Ok (Some {| FType := TargetTypeContainer; Values := Some [] |})).
Proof.
  refine (proj1 (@container_filter_units envOneApp globalForApps [myapp] _ eq_refl _) _).
  - discriminate.
  - discriminate.
  - intros a _. exists []. reflexivity.
Defined.

Lemma containerLoop_not_nil env apps l vals :
  result (containerLoop env apps (Some l)) = Ok vals -> exists l', vals = Some l'.
Proof.
  revert l. induction apps as [| a rest IH]; intros l.
  - simpl. intros H. injection H as <-. eauto.
  - cbn [containerLoop]. rewrite result_bind. unfold call. cbn [result snd].
    destruct (app_Units env a) as [units | err]; [| discriminate].
    rewrite appendAll_Some. apply IH.
Qed.

(** X9.  The filters of the App, Service, ServiceInstance and Container
    kinds never return the unrestricted scope: an entry they return always
    carries a value list, and for the first three kinds that list is not
    empty. *)
Theorem listed_scope_never_unrestricted (env : Env) (t : Token) (k : TargetType)
    (checker : evtPermChecker) :
  In k [TargetTypeApp; TargetTypeService; TargetTypeServiceInstance;
        TargetTypeContainer] ->
  In (k, checker) evtPermMap ->
  resultScope (filter checker env t) <> Ok Unrestricted
  /\ forall tf,
       result (filter checker env t) = Ok (Some tf) ->
       exists vs, Values tf = Some vs /\ (k <> TargetTypeContainer -> vs <> []).
Proof.
  intros Hk Hin.
  assert (H : forall tf,
             result (filter checker env t) = Ok (Some tf) ->
             exists vs, Values tf = Some vs /\ (k <> TargetTypeContainer -> vs <> [])).
  { each_checker Hin;
      try (exfalso; simpl in Hk;
           repeat (destruct Hk as [Hk | Hk]; [discriminate Hk |]); exact Hk);
      intros tf; unfold_filters.
    - destruct (Grants t PermAppReadEvents); [discriminate |].
      rewrite result_bind. unfold call. cbn [result snd].
      destruct (app_List env _) as [[| a apps] | err]; try discriminate.
      intros H. injection H as <-. cbn [Values map].
      unfold sappend. cbn [elems app]. rewrite appendAll_Some.
      eexists. split; [reflexivity | discriminate].
    - destruct (Grants t PermServiceReadEvents); [discriminate |].
      rewrite result_bind. unfold call. cbn [result snd].
      destruct (provisionReadableServices env t _) as [[| a rest] | err];
        try discriminate.
      intros H. injection H as <-. cbn [Values map].
      unfold sappend. cbn [elems app]. rewrite appendAll_Some.
      eexists. split; [reflexivity | discriminate].
    - destruct (Grants t PermServiceInstanceReadEvents); [discriminate |].
      rewrite result_bind. unfold call. cbn [result snd].
      destruct (readableInstances env t _) as [[| a rest] | err]; try discriminate.
      intros H. injection H as <-. cbn [Values map].
      unfold sappend. cbn [elems app]. rewrite appendAll_Some.
      eexists. split; [reflexivity | discriminate].
    - destruct (Grants t PermAppReadEvents); [discriminate |].
      rewrite result_bind. unfold call. cbn [result snd].
      destruct (app_List env _) as [[| a apps] | err]; try discriminate.
      rewrite result_bind.
      destruct (result (containerLoop env (a :: apps) (Some []))) as [vals |] eqn:E;
        [| discriminate].
      destruct (containerLoop_not_nil _ _ _ E) as [l' ->].
      intros H. injection H as <-. exists l'. split; [reflexivity | congruence]. }
  split; [| exact H].
  unfold resultScope.
  destruct (result (filter checker env t)) as [[tf |] | err]; try discriminate.
  destruct (H tf eq_refl) as (vs & Hvs & _). simpl. rewrite Hvs. discriminate.
Qed.

Lemma listed_scope_never_unrestricted_witness :
  resultScope (filter appPermChecker envOneApp globalForApps) <> Ok Unrestricted.
Proof.
  refine (proj1 (@listed_scope_never_unrestricted envOneApp globalForApps TargetTypeApp
                   appPermChecker _ _)); simpl; tauto.
Defined.

(** ** The node filter and its listing *)

Lemma bind_ret_l {A B} (a : A) (f : A -> M B) : bind (ret a) f = f a.
Proof. unfold bind, ret. destruct (f a). reflexivity. Qed.

Lemma appendAll_app vals xs ys :
  appendAll (appendAll vals xs) ys = appendAll vals (xs ++ ys).
Proof. unfold appendAll. now rewrite fold_left_app. Qed.

Lemma nodeLoop_cached env contexts vals ns :
  existsb isGlobal contexts = false ->
  nodeLoop env contexts vals (Some ns) =
    ret (appendAll vals (nodesOfContexts (Some ns) contexts)).
Proof.
  revert vals. induction contexts as [| c cs IH]; intros vals Hg; [reflexivity |].
  simpl in Hg. apply orb_false_iff in Hg as [Hc Hcs]. unfold isGlobal in Hc.
  cbn [nodeLoop]. rewrite Hc. unfold nodesOfContexts. cbn [List.filter].
  unfold isPoolContext at 1.
  destruct (contextType_eqb (CtxType c) CtxPool).
  - cbn [is_nil]. rewrite bind_ret_l, IH by exact Hcs.
    cbn [flat_map]. now rewrite appendAll_app.
  - now apply IH.
Qed.

Lemma nodeLoop_first_listing env contexts vals ln ns :
  NodeProvisioner env = Some ln ->
  ln None = Ok (Some ns) ->
  existsb isGlobal contexts = false ->
  nodeLoop env contexts vals None =
    ((if existsb isPoolContext contexts then [CallListNodes None] else []),
     Ok (appendAll vals (nodesOfContexts (Some ns) contexts))).
Proof.
  intros Hln Hns. revert vals.
  induction contexts as [| c cs IH]; intros vals Hg; [reflexivity |].
  simpl in Hg. apply orb_false_iff in Hg as [Hc Hcs]. unfold isGlobal in Hc.
  cbn [nodeLoop existsb]. rewrite Hc. unfold nodesOfContexts. cbn [List.filter].
  unfold isPoolContext at 1 3.
  destruct (contextType_eqb (CtxType c) CtxPool).
  - cbn [is_nil orb]. rewrite Hln. unfold call, bind. rewrite Hns.
    rewrite nodeLoop_cached by exact Hcs. unfold ret.
    cbn [flat_map app]. now rewrite appendAll_app.
  - cbn [orb]. now apply IH.
Qed.

(** X10.  The node filter with a provisioner that lists a non-nil slice of
    nodes, for an actor whose contexts are not empty and hold no Global
    context: the nodes are listed once, at the first Pool context, and not
    at all without Pool context; the values of the entry are, for each Pool
    context in order, the addresses of the listed nodes of that pool. *)
Theorem node_filter_listing (env : Env) (t : Token)
    (ln : slice string -> Result (slice Node)) (ns : list Node) :
  NodeProvisioner env = Some ln ->
  ln None = Ok (Some ns) ->
  ContextsForPermission t PermPoolReadEvents <> [] ->
  existsb isGlobal (ContextsForPermission t PermPoolReadEvents) = false ->
  filter nodePermChecker env t =
    ((if existsb isPoolContext (ContextsForPermission t PermPoolReadEvents)
      then [CallListNodes None] else []),
     Ok (Some {| FType := TargetTypeNode;
                 Values := appendAll None
                   (nodesOfContexts (Some ns)
                      (ContextsForPermission t PermPoolReadEvents)) |})).
Proof.
  intros Hln Hns Hne Hg. unfold ContextsForPermission in *. unfold_filters.
  destruct (Grants t PermPoolReadEvents) as [| c cs] eqn:E; [congruence |].
  rewrite (nodeLoop_first_listing env (c :: cs) None Hln Hns Hg).
  unfold bind, ret. now rewrite app_nil_r.
Qed.

Lemma node_filter_listing_witness :
  filter nodePermChecker envTwoNodes twoPools =
    ([CallListNodes None],
     Ok (Some {| FType := TargetTypeNode;
                 Values := Some ["10.0.0.2"; "10.0.0.1"] |})).
Proof.
  refine (@node_filter_listing envTwoNodes twoPools twoNodes [node1; node2]
            eq_refl eq_refl _ eq_refl).
  discriminate.
Defined.

Lemma nodeLoop_skip env pre rest vals nodes :
  existsb isGlobal pre = false ->
  existsb isPoolContext pre = false ->
  nodeLoop env (pre ++ rest) vals nodes = nodeLoop env rest vals nodes.
Proof.
  induction pre as [| c pre IH]; intros Hg Hp; [reflexivity |].
  simpl in Hg, Hp. apply orb_false_iff in Hg as [Hc Hg], Hp as [Hc' Hp].
  unfold isGlobal in Hc. unfold isPoolContext in Hc'.
  cbn [app nodeLoop]. rewrite Hc, Hc'. now apply IH.
Qed.

(** X11.  The node filter decides at the first context that is Global or
    Pool.  When it is Global the scope is unrestricted and the nodes are
    not listed, whatever follows.  When it is Pool the nodes are listed,
    and a failure of that listing is returned instead of a filter, even if
    a Global context follows. *)
Theorem node_filter_first_context (env : Env) (t : Token)
    (pre post : list PermissionContext) (c : PermissionContext) :
  ContextsForPermission t PermPoolReadEvents = pre ++ c :: post ->
  existsb isGlobal pre = false ->
  existsb isPoolContext pre = false ->
  (isGlobal c = true ->
     filter nodePermChecker env t =
       ret (Some {| FType := TargetTypeNode; Values := None |}))
  /\ (isPoolContext c = true ->
      forall ln err,
        NodeProvisioner env = Some ln ->
        ln None = Err err ->
        filter nodePermChecker env t = ([CallListNodes None], Err err)).
Proof.
  intros Hctx Hg Hp. unfold ContextsForPermission in *. split.
  - intros Hc. unfold_filters. rewrite Hctx.
    destruct (pre ++ c :: post) eqn:E; [now destruct pre |]. rewrite <- E.
    rewrite nodeLoop_skip by assumption.
    cbn [nodeLoop]. unfold isGlobal in Hc. rewrite Hc. reflexivity.
  - intros Hc ln err Hln Herr. unfold_filters. rewrite Hctx.
    destruct (pre ++ c :: post) eqn:E; [now destruct pre |]. rewrite <- E.
    rewrite nodeLoop_skip by assumption.
    cbn [nodeLoop]. unfold isPoolContext in Hc. rewrite Hc.
    destruct (contextType_eqb (CtxType c) CtxGlobal) eqn:Hglobal.
    + apply contextType_eqb_eq in Hglobal. apply contextType_eqb_eq in Hc. congruence.
    + cbn [is_nil]. rewrite Hln. unfold call, bind. rewrite Herr. reflexivity.
Qed.

Lemma node_filter_first_context_witness :
  filter nodePermChecker envNodesDown poolAndGlobal =
    ([CallListNodes None], Err (ErrOther "provisioner is down")).
Proof.
  exact (proj2 (@node_filter_first_context envNodesDown poolAndGlobal []
                  [Context CtxGlobal ""] (Context CtxPool "pool1")
                  eq_refl eq_refl eq_refl)
               eq_refl nodesDown (ErrOther "provisioner is down") eq_refl eq_refl).
Defined.

(** ** The check of a service instance given by its composite name *)

(** X12.  For an event about the service instance "a/b", where the service
    name [a] holds no ["/"] (the instance name [b] may), the check of the
    service-instance checker looks up the instance [b] of the service [a]:
    a failure of the lookup is returned as it is, without asking
    [permission.Check]; otherwise [permission.Check] is asked with the
    teams of the instance and the context (ServiceInstance, "a/b").  The
    names that the filter lists are of this form. *)
Theorem service_instance_check_lookup (env : Env) (t : Token) (r : Request) (e : Event)
    (kind : checkKind) (a b : string) :
  TValue (ETarget e) = (a ++ "/" ++ b)%string ->
  ~ In "/"%char (list_ascii_of_string a) ->
  serviceIntancePermName a b = TValue (ETarget e)
  /\ (forall err,
        getServiceInstanceOrError env a b = Err err ->
        check serviceInstancePermChecker env t r e kind =
          ([CallGetServiceInstance a b], Err err))
  /\ (forall si,
        getServiceInstanceOrError env a b = Ok si ->
        check serviceInstancePermChecker env t r e kind =
          ([CallGetServiceInstance a b;
            CallPermissionCheck
              (perms PermServiceInstanceReadEvents PermServiceInstanceUpdateEvents kind)
              (Contexts CtxTeam (SI_Teams si)
                 ++ [Context CtxServiceInstance (a ++ "/" ++ b)%string])],
           Ok (Check t
                 (perms PermServiceInstanceReadEvents PermServiceInstanceUpdateEvents kind)
                 (Contexts CtxTeam (SI_Teams si)
                    ++ [Context CtxServiceInstance (a ++ "/" ++ b)%string])))).
Proof.
  intros Hv Hno. split; [now rewrite Hv |].
  cbv [check serviceInstancePermChecker serviceInstancePermChecker_check SplitN2].
  rewrite Hv, (cutSlash_append a b Hno).
  split; [intros err Herr | intros si Hsi]; unfold call, bind, permission_Check.
  - now rewrite Herr.
  - now rewrite Hsi.
Qed.

Lemma service_instance_check_lookup_witness :
  check serviceInstancePermChecker emptyEnv alice (requestFor sampleId "")
        (sampleEvent TargetTypeServiceInstance "mysql/prod/db1") readCheckKind =
    ([CallGetServiceInstance "mysql" "prod/db1"], Err (ErrOther "not found")).
Proof.
  refine (proj1 (proj2 (@service_instance_check_lookup emptyEnv alice
                          (requestFor sampleId "")
                          (sampleEvent TargetTypeServiceInstance "mysql/prod/db1")
                          readCheckKind "mysql" "prod/db1" eq_refl _))
                (ErrOther "not found") eq_refl).
  simpl. intros H. repeat (destruct H as [H | H]; [discriminate H |]). exact H.
Defined.

(** * Properties of the pool handlers *)

(** ** The list of pools *)

Lemma contextLoop_teams_no_global contexts :
  existsb isGlobal contexts = false ->
  contextLoop CtxTeam contexts (Some []) = Some (valuesOfType CtxTeam contexts).
Proof.
  intros Hg. rewrite contextLoop_no_global by (discriminate || exact Hg).
  apply appendAll_Some.
Qed.

(** X13.  [poolList] asks the store once and nothing else (no permission
    check, no event), with an [$or] query that always begins with the
    public pools and the default pools.  When the actor's contexts for
    creating applications include Global, whatever else they hold, the
    query ends with the pools that are neither default nor public; without
    Global and with Team contexts it ends with those pools restricted to
    the teams of exactly these contexts, in order; with neither, it has no
    third clause.  An error of the store is returned as it is, no pool
    gives status 204, and pools are written as JSON. *)
Theorem poolList_query (env : PoolEnv) (t : Token) (r : PoolRequest) :
  let contexts := poolContexts env t PermAppCreate in
  exists q,
    fst (poolList env t r) = [ListPools q]
    /\ firstn 2 q = [ [("public", BBool true)]; [("default", BBool true)] ]
    /\ (existsb isGlobal contexts = true ->
        skipn 2 q = [ [("default", BBool false); ("public", BBool false)] ])
    /\ (existsb isGlobal contexts = false ->
        skipn 2 q =
          match valuesOfType CtxTeam contexts with
          | [] => []
          | teams => [ [("default", BBool false); ("public", BBool false);
                        ("teams", BIn teams)] ]
          end)
    /\ snd (poolList env t r) =
         match provision_ListPools env q with
         | Failed err => Failed err
         | Done [] => Done {| written := Some StatusNoContent; jsonPools := None |}
         | Done pools => Done {| written := None; jsonPools := Some pools |}
         end.
Proof.
  intros contexts. unfold poolList. fold contexts.
  exists (poolListQuery (contextLoop CtxTeam contexts (Some []))).
  split; [| split; [reflexivity | split; [| split]]].
  - destruct (provision_ListPools env _) as [[| p ps] | err]; reflexivity.
  - intros Hg. now rewrite contextLoop_global.
  - intros Hg. rewrite contextLoop_teams_no_global by exact Hg.
    unfold poolListQuery. cbn [is_nil elems app skipn].
    destruct (valuesOfType CtxTeam contexts); reflexivity.
  - destruct (provision_ListPools env _) as [[| p ps] | err]; reflexivity.
Qed.

Lemma poolList_query_witness :
  exists q,
    fst (poolList (samplePoolEnv true [Context CtxTeam "alpha"; Context CtxGlobal ""]
                     None [])
           alice (poolRequest "" [])) = [ListPools q]
    /\ skipn 2 q = [ [("default", BBool false); ("public", BBool false)] ].
Proof.
  destruct (poolList_query
              (samplePoolEnv true [Context CtxTeam "alpha"; Context CtxGlobal ""] None [])
              alice (poolRequest "" [])) as (q & H1 & _ & H3 & _).
  exists q. split; [exact H1 | exact (H3 eq_refl)].
Defined.

(** ** The handlers that change pools *)

Ltac each_mutation H :=
  simpl in H;
  repeat (destruct H as [H | H]; [injection H as <- <- |]);
  [.. | contradiction].

Ltac unfold_pool_handlers :=
  cbv [addPoolHandler removePoolHandler addTeamToPoolHandler removeTeamToPoolHandler
       poolUpdateHandler withPermission].

(* The answers of the store that a handler returns as they are. *)
Ltac untranslated_answer :=
  let err := fresh "err" in
  let Hnf := fresh "Hnf" in
  let Hdef := fresh "Hdef" in
  let Hname := fresh "Hname" in
  intros err -> Hnf Hdef Hname;
  destruct err; try reflexivity;
  solve [ discriminate (Hnf eq_refl)
        | destruct (Hdef eq_refl); congruence
        | exfalso; apply (Hname eq_refl); reflexivity ].

(** X14.  Every handler that changes pools asks [permission.Check] for its
    scheme first; when the answer is no, it returns the unauthorized error
    and has done nothing else: no event is created and the store is not
    called. *)
Theorem pool_mutation_unauthorized (env : PoolEnv) (t : Token) (r : PoolRequest)
    (s : PoolScheme) (handler : PoolEnv -> Token -> PoolRequest -> P PoolResponse) :
  In (s, handler) poolMutations ->
  poolCheck env t s = false ->
  handler env t r = ([PermissionCheck s], Failed (BaseError ErrUnauthorized)).
Proof.
  intros Hin Hno. each_mutation Hin; unfold_pool_handlers; now rewrite Hno.
Qed.

Lemma pool_mutation_unauthorized_witness :
  removePoolHandler (samplePoolEnv false [] None []) alice (poolRequest "pool1" []) =
    ([PermissionCheck PermPoolDelete], Failed (BaseError ErrUnauthorized)).
Proof.
  refine (@pool_mutation_unauthorized (samplePoolEnv false [] None []) alice
            (poolRequest "pool1" []) PermPoolDelete removePoolHandler _ eq_refl).
  simpl. tauto.
Defined.

(** The calls of a handler that changes pools take one of three forms. *)
Lemma pool_mutation_cases (env : PoolEnv) (t : Token) (r : PoolRequest)
    (s : PoolScheme) (handler : PoolEnv -> Token -> PoolRequest -> P PoolResponse) :
  In (s, handler) poolMutations ->
  let tr := fst (handler env t r) in
  let res := snd (handler env t r) in
  (tr = [PermissionCheck s] /\ exists e, res = Failed (BaseError e))
  \/ exists target data,
       Type_ target = TargetTypePool
       /\ poolCheck env t s = true
       /\ ((exists err,
              event_New env target s t data = Some err
              /\ tr = [PermissionCheck s; EventNew target s t data]
              /\ res = Failed err)
           \/ (event_New env target s t data = None
               /\ exists mid,
                    tr = PermissionCheck s :: EventNew target s t data
                           :: mid ++ [EventDone (returnedError res)]
                    /\ forallb isStoreChange mid = true
                    /\ (List.length mid <= 1)%nat
                    /\ (mid = [] -> exists code msg, res = Failed (httpError code msg)))).
Proof.
  intros Hin. cbv zeta.
  each_mutation Hin; unfold_pool_handlers; cbn [APName];
    (destruct (poolCheck env t _) eqn:Hcheck;
     [| left; split; [reflexivity | eexists; reflexivity]]).
  - (* addPoolHandler *)
    destruct (String.eqb (FormValue r "name") "") eqn:Hname;
      [left; split; [reflexivity | eexists; reflexivity] |].
    right. unfold withEvent.
    exists {| Type_ := TargetTypePool; TValue := (FormValue r "name") |},
      (formToEvents env (parsedForm r)).
    split; [reflexivity |]. split; [reflexivity |].
    destruct (event_New env _ _ _ _) as [err |] eqn:Hevt.
    + left. exists err. repeat split; eauto.
    + right. split; [reflexivity |]. eexists [_]. cbn [fst snd app].
      repeat split; simpl; try lia. discriminate.
  - (* removePoolHandler *)
    right. unfold withEvent.
    exists {| Type_ := TargetTypePool; TValue := (firstValue (urlQuery r) ":name") |},
      (formToEvents env (parsedForm r)).
    split; [reflexivity |]. split; [reflexivity |].
    destruct (event_New env _ _ _ _) as [err |] eqn:Hevt.
    + left. exists err. repeat split; eauto.
    + right. split; [reflexivity |]. eexists [_]. cbn [fst snd app].
      repeat split; simpl; try lia. discriminate.
  - (* addTeamToPoolHandler *)
    destruct (parseFormError r);
      [left; split; [reflexivity | eexists; reflexivity] |].
    right. unfold withEvent.
    exists {| Type_ := TargetTypePool; TValue := (firstValue (urlQuery r) ":name") |},
      (formToEvents env (parsedForm r)).
    split; [reflexivity |]. split; [reflexivity |].
    destruct (event_New env _ _ _ _) as [err |] eqn:Hevt.
    + left. exists err. repeat split; eauto.
    + right. split; [reflexivity |].
      destruct (valuesOf (parsedForm r) "team") as [teams |].
      * eexists [_]. cbn [fst snd app].
        repeat split; simpl; try lia. discriminate.
      * exists []. cbn [fst snd app]. repeat split; simpl; try lia.
        intros _. do 2 eexists. reflexivity.
  - (* removeTeamToPoolHandler *)
    right. unfold withEvent.
    exists {| Type_ := TargetTypePool; TValue := (firstValue (urlQuery r) ":name") |},
      (formToEvents env (parsedForm r)).
    split; [reflexivity |]. split; [reflexivity |].
    destruct (event_New env _ _ _ _) as [err |] eqn:Hevt.
    + left. exists err. repeat split; eauto.
    + right. split; [reflexivity |].
      destruct (valuesOf (urlQuery r) "team") as [teams |].
      * eexists [_]. cbn [fst snd app].
        repeat split; simpl; try lia. discriminate.
      * exists []. cbn [fst snd app]. repeat split; simpl; try lia.
        intros _. do 2 eexists. reflexivity.
  - (* poolUpdateHandler *)
    right. unfold withEvent.
    exists {| Type_ := TargetTypePool; TValue := (firstValue (urlQuery r) ":name") |},
      (formToEvents env (parsedForm r)).
    split; [reflexivity |]. split; [reflexivity |].
    destruct (event_New env _ _ _ _) as [err |] eqn:Hevt.
    + left. exists err. repeat split; eauto.
    + right. split; [reflexivity |]. eexists [_]. cbn [fst snd app].
      repeat split; simpl; try lia. discriminate.
Qed.

(** X15.  A handler changes the pool store only with permission and inside
    an event: when its calls include a change of the store, they are
    exactly the permission check, answered yes, the creation of an event of
    the handler's scheme about a pool, that one change, and the closing of
    the event with the error that the handler returns (none on success). *)
Theorem pool_change_audited (env : PoolEnv) (t : Token) (r : PoolRequest)
    (s : PoolScheme) (handler : PoolEnv -> Token -> PoolRequest -> P PoolResponse)
    (c : PoolCall) :
  In (s, handler) poolMutations ->
  In c (fst (handler env t r)) ->
  isStoreChange c = true ->
  poolCheck env t s = true
  /\ exists target data,
       Type_ target = TargetTypePool
       /\ event_New env target s t data = None
       /\ fst (handler env t r) =
            [PermissionCheck s; EventNew target s t data; c;
             EventDone (returnedError (snd (handler env t r)))].
Proof.
  intros Hin Hc Hchange.
  pose proof (@pool_mutation_cases env t r s handler Hin) as Hcases.
  cbv zeta in Hcases. destruct Hcases
    as [[Htr _] | (target & data & Hty & Hcheck & [(err & Hevt & Htr & _)
                                                  | (Hevt & mid & Htr & Hmid & Hlen & _)])];
    rewrite Htr in Hc.
  - destruct Hc as [<- | []]. discriminate Hchange.
  - destruct Hc as [<- | [<- | []]]; discriminate Hchange.
  - split; [exact Hcheck |]. exists target, data. split; [exact Hty |].
    split; [exact Hevt |]. rewrite Htr.
    destruct mid as [| c' [| c'' mid]]; [| | simpl in Hlen; lia].
    + simpl in Hc. destruct Hc as [<- | [<- | [<- | []]]]; discriminate Hchange.
    + simpl in Hc. destruct Hc as [<- | [<- | [<- | [<- | []]]]];
        try discriminate Hchange. reflexivity.
Qed.

Lemma pool_change_audited_witness :
  poolCheck (samplePoolEnv true [] (Some ErrPoolNotFound) []) alice PermPoolDelete = true
  /\ exists target data,
       Type_ target = TargetTypePool
       /\ event_New (samplePoolEnv true [] (Some ErrPoolNotFound) []) target
            PermPoolDelete alice data = None
       /\ fst (removePoolHandler (samplePoolEnv true [] (Some ErrPoolNotFound) []) alice
                 (poolRequest "pool1" [])) =
            [PermissionCheck PermPoolDelete;
             EventNew target PermPoolDelete alice data;
             RemovePool "pool1";
             EventDone (returnedError
                          (snd (removePoolHandler
                                  (samplePoolEnv true [] (Some ErrPoolNotFound) []) alice
                                  (poolRequest "pool1" []))))].
Proof.
  apply pool_change_audited; [simpl; tauto | simpl; tauto | reflexivity].
Defined.

(** X16.  An event that a handler creates is closed: when the creation of
    the event succeeds, the handler's last call closes it, once, with
    exactly the error that the handler returns; when it fails, that error
    is returned and neither the store nor an event is touched again. *)
Theorem pool_event_closed (env : PoolEnv) (t : Token) (r : PoolRequest)
    (s : PoolScheme) (handler : PoolEnv -> Token -> PoolRequest -> P PoolResponse)
    (target : Target) (kind : PoolScheme) (owner : Token) (data : Values_) :
  In (s, handler) poolMutations ->
  In (EventNew target kind owner data) (fst (handler env t r)) ->
  kind = s /\ owner = t /\ Type_ target = TargetTypePool
  /\ (event_New env target s t data = None ->
      exists pre,
        fst (handler env t r) =
          pre ++ [EventDone (returnedError (snd (handler env t r)))]
        /\ existsb isEventDone pre = false)
  /\ (forall err,
        event_New env target s t data = Some err ->
        snd (handler env t r) = Failed err
        /\ existsb isEventDone (fst (handler env t r)) = false
        /\ existsb isStoreChange (fst (handler env t r)) = false).
Proof.
  intros Hin Hevent.
  pose proof (@pool_mutation_cases env t r s handler Hin) as Hcases.
  cbv zeta in Hcases. destruct Hcases
    as [[Htr _] | (target' & data' & Hty & Hcheck & [(err & Hevt & Htr & Hres)
                                                    | (Hevt & mid & Htr & Hmid & Hlen & _)])];
    rewrite Htr in Hevent.
  - destruct Hevent as [H | []]. discriminate H.
  - destruct Hevent as [H | [H | []]]; [discriminate H |].
    injection H as <- <- <- <-.
    split; [reflexivity |]. split; [reflexivity |]. split; [exact Hty |]. split.
    + intros Hnone. congruence.
    + intros err' Herr'. rewrite Htr. split; [congruence | split; reflexivity].
  - assert (Hsame : EventNew target' s t data' = EventNew target kind owner data).
    { simpl in Hevent. destruct Hevent as [H | [H | Hin']]; [discriminate H | exact H |].
      apply in_app_or in Hin' as [Hin' | [H | []]]; [| discriminate H].
      rewrite forallb_forall in Hmid. specialize (Hmid _ Hin'). discriminate Hmid. }
    injection Hsame as <- <- <- <-.
    split; [reflexivity |]. split; [reflexivity |]. split; [exact Hty |]. split.
    + intros _. exists (PermissionCheck s :: EventNew target' s t data' :: mid).
      split; [rewrite Htr; reflexivity |]. simpl.
      clear -Hmid. induction mid as [| c mid IH]; [reflexivity |].
      simpl in *. apply andb_true_iff in Hmid as [Hc Hmid].
      rewrite (IH Hmid). destruct c; try reflexivity; discriminate Hc.
    + intros err' Herr'. congruence.
Qed.

Lemma pool_event_closed_witness :
  exists pre,
    fst (poolUpdateHandler (samplePoolEnv true [] None []) alice
           (poolRequest "pool1" [("public", ["true"])])) =
      pre ++ [EventDone None]
    /\ existsb isEventDone pre = false.
Proof.
  refine (proj1 (proj2 (proj2 (proj2
            (@pool_event_closed (samplePoolEnv true [] None []) alice
               (poolRequest "pool1" [("public", ["true"])]) PermPoolUpdate
               poolUpdateHandler {| Type_ := TargetTypePool; TValue := "pool1" |}
               PermPoolUpdate alice [("public", ["true"])] _ _)))) eq_refl).
  - simpl. tauto.
  - simpl. tauto.
Defined.

(** X17.  What a handler returns after it called the store.  When the
    store accepts the change the handler returns nil, and only
    [addPoolHandler] writes a status, 201.  The store's "pool not found" is
    returned as a not-found error (404) by every handler but
    [addPoolHandler]; its "default pool already exists" as a conflict (409)
    by [addPoolHandler] and [poolUpdateHandler]; its "pool name is
    required" as a bad request (400) by [addPoolHandler]; each with the
    text of the store's error.  Every other error is returned as it is, and
    so are these three by the handlers that do not translate them: "pool
    not found" by [addPoolHandler], "default pool already exists" by the
    handlers that remove a pool or add or remove teams, "pool name is
    required" by every handler but [addPoolHandler]. *)
Theorem pool_store_answer (env : PoolEnv) (t : Token) (r : PoolRequest)
    (s : PoolScheme) (handler : PoolEnv -> Token -> PoolRequest -> P PoolResponse)
    (c : PoolCall) :
  In (s, handler) poolMutations ->
  In c (fst (handler env t r)) ->
  isStoreChange c = true ->
  (storeAnswer env c = None ->
     snd (handler env t r) =
       Done {| written := match s with
                          | PermPoolCreate => Some StatusCreated
                          | _ => None
                          end;
               jsonPools := None |})
  /\ (storeAnswer env c = Some ErrPoolNotFound ->
      s <> PermPoolCreate ->
      snd (handler env t r) =
        Failed (httpError StatusNotFound (poolErrorText env ErrPoolNotFound)))
  /\ (storeAnswer env c = Some ErrDefaultPoolAlreadyExists ->
      s = PermPoolCreate \/ s = PermPoolUpdate ->
      snd (handler env t r) =
        Failed (httpError StatusConflict (poolErrorText env ErrDefaultPoolAlreadyExists)))
  /\ (storeAnswer env c = Some ErrPoolNameIsRequired ->
      s = PermPoolCreate ->
      snd (handler env t r) =
        Failed (httpError StatusBadRequest (poolErrorText env ErrPoolNameIsRequired)))
  /\ (forall err,
        storeAnswer env c = Some err ->
        (err = ErrPoolNotFound -> s = PermPoolCreate) ->
        (err = ErrDefaultPoolAlreadyExists ->
         s <> PermPoolCreate /\ s <> PermPoolUpdate) ->
        (err = ErrPoolNameIsRequired -> s <> PermPoolCreate) ->
        snd (handler env t r) = Failed err).
Proof.
  intros Hin Hc Hchange. revert Hc.
  each_mutation Hin; unfold_pool_handlers; cbn [APName];
    (destruct (poolCheck env t _);
     [| intros [<- | []]; discriminate Hchange]).
  - destruct (String.eqb (FormValue r "name") ""); [intros [<- | []]; discriminate |].
    unfold withEvent. destruct (event_New env _ _ _ _).
    + intros [<- | [<- | []]]; discriminate.
    + cbn [fst snd app]. intros [<- | [<- | [<- | [<- | []]]]]; try discriminate.
      cbn [storeAnswer].
      repeat split; try (intros ->; reflexivity);
        try (intros -> [H | H]; (reflexivity || discriminate H));
        try (intros -> H; (reflexivity || congruence)).
      untranslated_answer.
  - unfold withEvent. destruct (event_New env _ _ _ _).
    + intros [<- | [<- | []]]; discriminate.
    + cbn [fst snd app]. intros [<- | [<- | [<- | [<- | []]]]]; try discriminate.
      cbn [storeAnswer].
      repeat split; try (intros ->; reflexivity);
        try (intros -> [H | H]; (reflexivity || discriminate H));
        try (intros -> H; (reflexivity || congruence)).
      untranslated_answer.
  - destruct (parseFormError r); [intros [<- | []]; discriminate |].
    unfold withEvent. destruct (event_New env _ _ _ _).
    + intros [<- | [<- | []]]; discriminate.
    + destruct (valuesOf (parsedForm r) "team") as [teams |]; cbn [fst snd app].
      * intros [<- | [<- | [<- | [<- | []]]]]; try discriminate.
        cbn [storeAnswer].
        repeat split; try (intros ->; reflexivity);
          try (intros -> [H | H]; (reflexivity || discriminate H));
          try (intros -> H; (reflexivity || congruence)).
        untranslated_answer.
      * intros [<- | [<- | [<- | []]]]; discriminate.
  - unfold withEvent. destruct (event_New env _ _ _ _).
    + intros [<- | [<- | []]]; discriminate.
    + destruct (valuesOf (urlQuery r) "team") as [teams |]; cbn [fst snd app].
      * intros [<- | [<- | [<- | [<- | []]]]]; try discriminate.
        cbn [storeAnswer].
        repeat split; try (intros ->; reflexivity);
          try (intros -> [H | H]; (reflexivity || discriminate H));
          try (intros -> H; (reflexivity || congruence)).
        untranslated_answer.
      * intros [<- | [<- | [<- | []]]]; discriminate.
  - unfold withEvent. destruct (event_New env _ _ _ _).
    + intros [<- | [<- | []]]; discriminate.
    + cbn [fst snd app]. intros [<- | [<- | [<- | [<- | []]]]]; try discriminate.
      cbn [storeAnswer].
      repeat split; try (intros ->; reflexivity);
        try (intros -> [H | H]; (reflexivity || discriminate H));
        try (intros -> H; (reflexivity || congruence)).
      untranslated_answer.
Qed.

Lemma pool_store_answer_witness :
  snd (poolUpdateHandler (samplePoolEnv true [] (Some ErrDefaultPoolAlreadyExists) [])
         alice (poolRequest "pool1" [("default", ["true"])])) =
    Failed (httpError 409 "Default pool already exists.").
Proof.
  refine (proj1 (proj2 (proj2
            (@pool_store_answer
               (samplePoolEnv true [] (Some ErrDefaultPoolAlreadyExists) []) alice
               (poolRequest "pool1" [("default", ["true"])]) PermPoolUpdate
               poolUpdateHandler
               (PoolUpdate "pool1" [("default", BBool true)] false) _ _ eq_refl)))
            eq_refl (or_intror eq_refl)).
  - simpl. tauto.
  - simpl. tauto.
Defined.

(** ** Requests that the handlers refuse *)

(** X18.  [addPoolHandler] never hands a pool without name to the store:
    the options of every [AddPool] call carry the value "name" of the form,
    which is not empty, and each of the flags public, default and force is
    set exactly when the form value parses as true, so that a value that
    does not parse counts as false.  A request without name is refused as a
    bad request after the permission check alone, before any event. *)
Theorem addPool_options (env : PoolEnv) (t : Token) (r : PoolRequest) :
  (forall opts,
      In (AddPool opts) (fst (addPoolHandler env t r)) ->
      APName opts = FormValue r "name"
      /\ APName opts <> ""
      /\ (APPublic opts = true <-> ParseBool (FormValue r "public") = Some true)
      /\ (APDefault opts = true <-> ParseBool (FormValue r "default") = Some true)
      /\ (APForce opts = true <-> ParseBool (FormValue r "force") = Some true))
  /\ (poolCheck env t PermPoolCreate = true ->
      FormValue r "name" = "" ->
      addPoolHandler env t r =
        ([PermissionCheck PermPoolCreate],
         Failed (httpError StatusBadRequest (poolErrorText env ErrPoolNameIsRequired)))).
Proof.
  assert (Hparse : forall v, parseBoolIgnoringError v = true <-> ParseBool v = Some true).
  { intros v. unfold parseBoolIgnoringError.
    destruct (ParseBool v) as [[|] |]; split; congruence. }
  split.
  - intros opts. unfold addPoolHandler, withPermission. cbn [APName].
    destruct (poolCheck env t PermPoolCreate); [| intros [H | []]; discriminate H].
    destruct (String.eqb (FormValue r "name") "") eqn:Hname;
      [intros [H | []]; discriminate H |].
    apply String_eqb_empty in Hname.
    unfold withEvent. destruct (event_New env _ _ _ _).
    + intros [H | [H | []]]; discriminate H.
    + cbn [fst app]. intros [H | [H | [H | [H | []]]]]; try discriminate H.
      injection H as <-. cbn [APName APPublic APDefault APForce].
      repeat split; try apply Hparse; auto.
  - intros Hcheck Hname. unfold addPoolHandler, withPermission. cbn [APName].
    now rewrite Hcheck, Hname.
Qed.

Lemma addPool_options_witness :
  addPoolHandler (samplePoolEnv true [] None []) alice
    (poolRequest "" [("public", ["true"])]) =
    ([PermissionCheck PermPoolCreate], Failed (httpError 400 "Pool name is required.")).
Proof.
  exact (proj2 (addPool_options (samplePoolEnv true [] None []) alice
                  (poolRequest "" [("public", ["true"])])) eq_refl eq_refl).
Defined.

(** X19.  The team handlers refuse a request without team after the event
    was created: [addTeamToPoolHandler] reads the teams from the form and
    [removeTeamToPoolHandler] from the URL query; when the key "team" is
    missing there, the store is not called, the result is a bad request,
    and the event that was created is closed with that error. *)
Theorem team_required (env : PoolEnv) (t : Token) (r : PoolRequest) :
  (poolCheck env t PermPoolUpdateTeamAdd = true ->
   parseFormError r = false ->
   valuesOf (parsedForm r) "team" = None ->
   event_New env {| Type_ := TargetTypePool; TValue := firstValue (urlQuery r) ":name" |}
     PermPoolUpdateTeamAdd t (formToEvents env (parsedForm r)) = None ->
   addTeamToPoolHandler env t r =
     ([PermissionCheck PermPoolUpdateTeamAdd;
       EventNew {| Type_ := TargetTypePool; TValue := firstValue (urlQuery r) ":name" |}
         PermPoolUpdateTeamAdd t (formToEvents env (parsedForm r));
       EventDone (Some (httpError StatusBadRequest "You must provide the team."))],
      Failed (httpError StatusBadRequest "You must provide the team.")))
  /\ (poolCheck env t PermPoolUpdateTeamRemove = true ->
      valuesOf (urlQuery r) "team" = None ->
      event_New env
        {| Type_ := TargetTypePool; TValue := firstValue (urlQuery r) ":name" |}
        PermPoolUpdateTeamRemove t (formToEvents env (parsedForm r)) = None ->
      removeTeamToPoolHandler env t r =
        ([PermissionCheck PermPoolUpdateTeamRemove;
          EventNew {| Type_ := TargetTypePool; TValue := firstValue (urlQuery r) ":name" |}
            PermPoolUpdateTeamRemove t (formToEvents env (parsedForm r));
          EventDone (Some (httpError StatusBadRequest "You must provide the team"))],
         Failed (httpError StatusBadRequest "You must provide the team"))).
Proof.
  split.
  - intros Hcheck Hparse Hteam Hevt.
    unfold addTeamToPoolHandler, withPermission, withEvent.
    now rewrite Hcheck, Hparse, Hevt, Hteam.
  - intros Hcheck Hteam Hevt.
    unfold removeTeamToPoolHandler, withPermission, withEvent.
    now rewrite Hcheck, Hevt, Hteam.
Qed.

Lemma team_required_witness :
  snd (removeTeamToPoolHandler (samplePoolEnv true [] None []) alice
         (poolRequest "pool1" [("team", ["alpha"])])) =
    Failed (httpError 400 "You must provide the team").
Proof.
  exact (f_equal snd
           (proj2 (team_required (samplePoolEnv true [] None []) alice
                     (poolRequest "pool1" [("team", ["alpha"])]))
                  eq_refl eq_refl eq_refl)).
Defined.

Lemma query_field_In (r : PoolRequest) (k key : string) (v : bsonValue) :
  In (key, v)
     (if String.eqb (FormValue r k) "" then []
      else [(k, BBool (parseBoolIgnoringError (FormValue r k)))]) <->
  key = k /\ FormValue r key <> ""
  /\ v = BBool (parseBoolIgnoringError (FormValue r key)).
Proof.
  destruct (String.eqb (FormValue r k) "") eqn:E; simpl; split.
  - intros [].
  - intros (-> & Hne & _). apply String.eqb_eq in E. contradiction.
  - intros [H | []]. injection H as <- <-. apply String.eqb_neq in E. auto.
  - intros (-> & _ & ->). now left.
Qed.

(** X20.  The query of [poolUpdateHandler] holds the key "default",
    respectively "public", exactly when the form value of that key is not
    empty, with the boolean it parses to, false when it does not parse; it
    holds no other key and no key twice, and it is the query of every
    [PoolUpdate] call of the handler, for the pool named in the URL. *)
Theorem poolUpdate_query_fields (env : PoolEnv) (t : Token) (r : PoolRequest) :
  (forall key v,
      In (key, v) (poolUpdateQuery r) <->
      (key = "default" \/ key = "public")
      /\ FormValue r key <> ""
      /\ v = BBool (parseBoolIgnoringError (FormValue r key)))
  /\ NoDup (map fst (poolUpdateQuery r))
  /\ (forall name query force,
        In (PoolUpdate name query force) (fst (poolUpdateHandler env t r)) ->
        name = firstValue (urlQuery r) ":name"
        /\ query = poolUpdateQuery r
        /\ force = parseBoolIgnoringError (FormValue r "force")).
Proof.
  split; [| split].
  - intros key v. unfold poolUpdateQuery.
    rewrite in_app_iff, !query_field_In. tauto.
  - unfold poolUpdateQuery.
    destruct (String.eqb (FormValue r "default") "");
      destruct (String.eqb (FormValue r "public") ""); simpl;
      repeat constructor; simpl; intuition discriminate.
  - intros name query force. unfold poolUpdateHandler, withPermission, withEvent.
    destruct (poolCheck env t PermPoolUpdate); [| intros [H | []]; discriminate H].
    destruct (event_New env _ _ _ _).
    + intros [H | [H | []]]; discriminate H.
    + cbn [fst app]. intros [H | [H | [H | [H | []]]]]; try discriminate H.
      injection H as <- <- <-. auto.
Qed.

Lemma poolUpdate_query_fields_witness :
  In ("default", BBool false)
     (poolUpdateQuery (poolRequest "pool1" [("default", ["yes"]); ("public", [""])]))
  /\ ~ In ("public", BBool false)
       (poolUpdateQuery (poolRequest "pool1" [("default", ["yes"]); ("public", [""])])).
Proof.
  split.
  - apply (proj1 (poolUpdate_query_fields (samplePoolEnv true [] None []) alice
                    (poolRequest "pool1" [("default", ["yes"]); ("public", [""])]))).
    split; [now left |]. split; [discriminate | reflexivity].
  - intros H.
    apply (proj1 (poolUpdate_query_fields (samplePoolEnv true [] None []) alice
                    (poolRequest "pool1" [("default", ["yes"]); ("public", [""])])))
      in H.
    destruct H as (_ & Hne & _). now apply Hne.
Defined.

(** * What the filters depend on *)

(** X21.  The filters of the Team, Pool, User, IaaS and Role kinds call no
    store: they return the same scope whatever the stores hold. *)
Theorem direct_filters_call_nothing (env env' : Env) (t : Token) (k : TargetType)
    (checker : evtPermChecker) :
  In (k, checker) evtPermMap ->
  directContextKind k = true ->
  trace (filter checker env t) = []
  /\ filter checker env t = filter checker env' t.
Proof.
  intros Hin Hk. each_checker Hin; try discriminate Hk; unfold_filters.
  - destruct (Grants t PermTeamReadEvents); split; reflexivity.
  - destruct (Grants t PermPoolReadEvents); split; reflexivity.
  - destruct (Grants t PermUserReadEvents); split; reflexivity.
  - destruct (Grants t PermMachineReadEvents); split; reflexivity.
  - destruct (Grants t PermRoleReadEvents); split; reflexivity.
Qed.

Lemma direct_filters_call_nothing_witness :
  filter teamPermChecker failingApps twoTeams = filter teamPermChecker envOneNode twoTeams.
Proof.
  refine (proj2 (@direct_filters_call_nothing failingApps envOneNode twoTeams
                   TargetTypeTeam teamPermChecker _ eq_refl)).
  simpl. tauto.
Defined.

(** X22.  Of the token, the filter of a kind other than Service and
    ServiceInstance (whose store listings are given the token itself) uses
    the contexts of the kind's read-events scheme and, for the User kind,
    the user name: two tokens that agree on these get the same calls and
    the same scope, whatever else they are granted. *)
Theorem filter_uses_read_contexts (env : Env) (t t' : Token) (k : TargetType)
    (s : PermissionScheme) (checker : evtPermChecker) :
  In (k, checker) evtPermMap ->
  k <> TargetTypeService ->
  k <> TargetTypeServiceInstance ->
  readScheme k = Some s ->
  ContextsForPermission t s = ContextsForPermission t' s ->
  GetUserName t = GetUserName t' ->
  filter checker env t = filter checker env t'.
Proof.
  intros Hin Hk1 Hk2 Hs Hctx Hname. unfold ContextsForPermission in Hctx.
  each_checker Hin; try congruence; simpl in Hs; injection Hs as <-;
    unfold_filters; rewrite Hctx, ?Hname; reflexivity.
Qed.

Lemma filter_uses_read_contexts_witness :
  filter teamPermChecker emptyEnv twoTeams = filter teamPermChecker emptyEnv twoTeamsUpdater.
Proof.
  refine (@filter_uses_read_contexts emptyEnv twoTeams twoTeamsUpdater TargetTypeTeam
            PermTeamReadEvents teamPermChecker _ _ _ eq_refl eq_refl eq_refl).
  - simpl. tauto.
  - discriminate.
  - discriminate.
Defined.
